(** * pyoak.match.xpath: XPath-like selectors over parent-linked ASTs

    A shallow embedding of [src/pyoak/match/xpath.py]: the Lark grammar and
    its transformer (the element compiler), the process-wide cache of
    compiled paths, the bottom-up matcher [_match_node_xpath] and the
    top-down search [ASTXpath.findall]. *)

From Stdlib Require Import ZArith Ascii String.
From stdpp Require Import gmap strings list.

(** ** Exceptions

    Python exceptions that the embedded code can raise.  Fallible code
    returns [exn + A]. *)

Inductive exn : Set :=
  | UnexpectedInput            (* lark: lexer or parser rejected the text *)
  | ASTXpathDefinitionError    (* pyoak.match.error *)
  | ValueError                 (* int() on a non-numeral *)
  | IndexError                 (* list index out of range *)
  | AttributeError             (* attribute read before it was assigned *)
  | UnboundLocalError          (* local variable read before assignment *)
  | ASTNodeParentCollisionError. (* pyoak: the child of a new node has a parent *)

Definition result (A : Type) : Type := exn + A.

Definition raise {A} (e : exn) : result A := inl e.
Definition ret_ok {A} (a : A) : result A := inr a.

Definition bind {A B} (m : result A) (k : A → result B) : result B :=
  match m with
  | inl e => inl e
  | inr a => k a
  end.

Notation "'let*' x ':=' m 'in' k" := (bind m (fun x => k))
  (at level 10, x name, m at level 100, k at level 200, only parsing).

(** ** The node type system

    What the path compiler and the matchers consume from the node class
    hierarchy, an external collaborator of this module. *)

Class NodeTypes (T : Type) : Type := {
  (** The base class [pyoak.node.ASTNode]. *)
  ASTNode_cls : T;
  (** Python's subclass test: [isinstance(node, c)] is
      [issubclass (type node) c]. *)
  issubclass : T → T → bool;
  (** Modelled from the spec: [check_and_get_ast_node_type] of
      [pyoak.match.helpers] is not part of the sources at hand.  It is the
      type-name resolution collaborator: a registered name gives its type
      handle, any other name gives no type (and a message, dropped here). *)
  check_and_get_ast_node_type : string → option T
}.

(** ** Path elements and raw segments *)

Section Xpath.

(** Type handles: the Python class objects of the node hierarchy. *)
Context {T : Type} `{NodeTypes T}.

(** [class ASTXpathElement(NamedTuple)] *)
Record ASTXpathElement : Type := mkElement {
  ast_class : T;
  parent_field : option string;
  parent_index : option Z;
  anywhere : bool
}.

(** What the [element] and [self] callbacks return:
    [(parent_field, parent_index, ast_class)], the class being [None] for
    an empty placeholder segment. *)
Definition raw_segment : Type := (option string * option Z * option T)%type.

Definition raw_class (el : raw_segment) : option T := el.2.

(** The children a segment callback receives, in grammar order: a field
    name (a [str] token), an index ([int]) and a class ([type]). *)
Inductive arg : Type :=
  | ArgType (t : T)
  | ArgInt (i : Z)
  | ArgStr (s : string).

(** ** The transformer callbacks *)

(** [int(tok)] for a one-character token. *)
Definition int_of_token (c : ascii) : result Z :=
  let n := Z.of_nat (nat_of_ascii c) in
  if ((48 <=? n) && (n <=? 57))%Z then ret_ok (n - 48)%Z else raise ValueError.

(** [XPathTransformer.index_spec]: [-1] without digits, otherwise the
    integer value of [args[0]]. *)
Definition index_spec (args : list ascii) : result Z :=
  match args with
  | [] => ret_ok (-1)%Z
  | arg0 :: _ => int_of_token arg0
  end.

(** [XPathTransformer.field_spec] *)
Definition field_spec (args : list string) : result string :=
  match args with
  | [] => raise IndexError
  | arg0 :: _ => ret_ok arg0
  end.

(** [XPathTransformer.class_spec] *)
Definition class_spec (args : list string) : result T :=
  match args with
  | [] => raise IndexError
  | arg0 :: _ =>
      match check_and_get_ast_node_type arg0 with
      | None => raise ASTXpathDefinitionError
      | Some type_ => ret_ok type_
      end
  end.

(** One turn of the [for arg in args] loop of [element], on the locals
    [(type_, parent_field, parent_index)]. *)
Definition element_step (acc : T * option string * option Z) (a : arg)
  : T * option string * option Z :=
  let '(type_, pf, pi) := acc in
  match a with
  | ArgType t => (t, pf, pi)
  | ArgInt i => (type_, pf, if (i >? -1)%Z then Some i else None)
  | ArgStr s => (type_, Some s, pi)
  end.

(** [XPathTransformer.element] *)
Definition element (args : list arg) : raw_segment :=
  match args with
  | [] => (None, None, None)
  | _ :: _ =>
      let '(type_, pf, pi) := fold_left element_step args (ASTNode_cls, None, None) in
      (pf, pi, Some type_)
  end.

(** [XPathTransformer.self] *)
Definition self_ (args : list arg) : raw_segment := element args.

(** [ret[-1] = ASTXpathElement(ret[-1].ast_class, ret[-1].parent_field,
    ret[-1].parent_index, True)]; on an empty list [ret[-1]] raises. *)
Definition set_last_anywhere (ret : list ASTXpathElement) : result (list ASTXpathElement) :=
  match last ret with
  | None => raise IndexError
  | Some e =>
      ret_ok (removelast ret ++
              [mkElement (ast_class e) (parent_field e) (parent_index e) true])
  end.

Definition emit (el : raw_segment) (ast_class : T) : ASTXpathElement :=
  mkElement ast_class el.1.1 el.1.2 false.

(** The body of [XPathTransformer.xpath] on the iterator
    [elements = reversed(args)].  The outer recursion is the [for] loop,
    the inner [fix] is the [while ast_class is None] loop; both draw from
    the same iterator, so the element after a run of placeholders is taken
    by the inner loop and the [for] loop goes on behind it. *)
Fixpoint xpath_for (ret : list ASTXpathElement) (elements : list raw_segment)
  {struct elements} : result (list ASTXpathElement) :=
  match elements with
  | [] => ret_ok ret
  | el :: elements' =>
      match raw_class el with
      | Some ast_class => xpath_for (ret ++ [emit el ast_class]) elements'
      | None =>
          (fix xpath_while (ret : list ASTXpathElement) (elements : list raw_segment)
             {struct elements} : result (list ASTXpathElement) :=
             match elements with
             | [] =>
                 (* next_el is None: mark the last element and return *)
                 set_last_anywhere ret
             | next_el :: elements' =>
                 let* ret' := set_last_anywhere ret in
                 match raw_class next_el with
                 | None => xpath_while ret' elements'
                 | Some ast_class => xpath_for (ret' ++ [emit next_el ast_class]) elements'
                 end
             end) ret elements'
      end
  end.

(** [XPathTransformer.xpath] *)
Definition xpath (args : list raw_segment) : result (list ASTXpathElement) :=
  xpath_for [] (reverse args).

(** ** The grammar [xpath_grammar]

<<
    xpath: element* self
    element: "/" field_spec? index_spec? class_spec?
    self: "/" field_spec? index_spec? class_spec
    field_spec: "@" CNAME
    index_spec: "[" DIGIT* "]"
    class_spec: CNAME
    %ignore WS
>>
*)

Inductive token : Type :=
  | SLASH
  | AT
  | LSQB
  | RSQB
  | CNAME (s : string)
  | DIGIT (c : ascii).

(** Modelled from the spec: the terminals imported from Lark's
    [common.lark], which is not part of the sources at hand.
    [WS: /[ \t\f\r\n]/+], [DIGIT: "0".."9"], [LETTER: "a".."z" | "A".."Z"]
    and [CNAME: ("_"|LETTER) ("_"|LETTER|DIGIT)*]. *)
Definition is_WS (c : ascii) : bool :=
  let n := nat_of_ascii c in
  ((n =? 32) || (n =? 9) || (n =? 12) || (n =? 13) || (n =? 10))%nat.

Definition is_DIGIT (c : ascii) : bool :=
  let n := nat_of_ascii c in ((48 <=? n) && (n <=? 57))%nat.

Definition is_LETTER (c : ascii) : bool :=
  let n := nat_of_ascii c in
  (((97 <=? n) && (n <=? 122)) || ((65 <=? n) && (n <=? 90)))%nat.

Definition is_CNAME_start (c : ascii) : bool :=
  (nat_of_ascii c =? 95)%nat || is_LETTER c.

Definition is_CNAME_char (c : ascii) : bool :=
  is_CNAME_start c || is_DIGIT c.

(** The anonymous one-character terminals of the grammar. *)
Definition punctuation (c : ascii) : option token :=
  let n := nat_of_ascii c in
  if (n =? 47)%nat then Some SLASH
  else if (n =? 64)%nat then Some AT
  else if (n =? 91)%nat then Some LSQB
  else if (n =? 93)%nat then Some RSQB
  else None.

(** A [CNAME] being read, if any, becomes a token. *)
Definition flush (cname : option string) (toks : list token) : list token :=
  match cname with
  | Some name => CNAME name :: toks
  | None => toks
  end.

(** Modelled from the spec: Lark's lexer, which is not part of the sources
    at hand.  Longest match for [CNAME], one token per [DIGIT], white space
    dropped, any other character rejected.  [cname] is the identifier read
    so far. *)
Fixpoint lex (s : string) (cname : option string) : result (list token) :=
  match s with
  | EmptyString => ret_ok (flush cname [])
  | String c s' =>
      match cname with
      | Some name =>
          if is_CNAME_char c then lex s' (Some (name +:+ String c EmptyString))
          else if is_WS c then
            let* toks := lex s' None in ret_ok (CNAME name :: toks)
          else
            match punctuation c with
            | Some t => let* toks := lex s' None in ret_ok (CNAME name :: t :: toks)
            | None => raise UnexpectedInput
            end
      | None =>
          if is_CNAME_start c then lex s' (Some (String c EmptyString))
          else if is_DIGIT c then
            let* toks := lex s' None in ret_ok (DIGIT c :: toks)
          else if is_WS c then lex s' None
          else
            match punctuation c with
            | Some t => let* toks := lex s' None in ret_ok (t :: toks)
            | None => raise UnexpectedInput
            end
      end
  end.

(** Where the parser stands inside a segment. *)
Inductive stage : Type :=
  | AtStart                      (* nothing read yet *)
  | AfterSlash                   (* "/" *)
  | AfterAt                      (* "/" "@" *)
  | AfterField                   (* "/" field_spec *)
  | InIndex (digits : list ascii)  (* "/" field_spec? "[" DIGIT* *)
  | AfterIndex                   (* "/" field_spec? index_spec *)
  | AfterClass.                  (* "/" field_spec? index_spec? class_spec *)

(** The parser of the grammar with the transformer's callbacks applied as
    the rules are recognised: [segs] are the results of the finished
    [element]s, [args] the children of the segment being read.  The end of
    the text closes the [self] segment, which needs its class. *)
Fixpoint parse_tokens (st : stage) (segs : list raw_segment) (args : list arg)
    (toks : list token) : result (list raw_segment) :=
  match toks with
  | [] =>
      match st with
      | AfterClass => ret_ok (segs ++ [self_ args])
      | _ => raise UnexpectedInput
      end
  | tok :: toks' =>
      match st, tok with
      | AtStart, SLASH => parse_tokens AfterSlash segs [] toks'
      | (AfterSlash | AfterField | AfterIndex | AfterClass), SLASH =>
          parse_tokens AfterSlash (segs ++ [element args]) [] toks'
      | AfterSlash, AT => parse_tokens AfterAt segs args toks'
      | AfterAt, CNAME name =>
          let* f := field_spec [name] in
          parse_tokens AfterField segs (args ++ [ArgStr f]) toks'
      | (AfterSlash | AfterField), LSQB => parse_tokens (InIndex []) segs args toks'
      | InIndex digits, DIGIT d => parse_tokens (InIndex (digits ++ [d])) segs args toks'
      | InIndex digits, RSQB =>
          let* i := index_spec digits in
          parse_tokens AfterIndex segs (args ++ [ArgInt i]) toks'
      | (AfterSlash | AfterField | AfterIndex), CNAME name =>
          let* t := class_spec [name] in
          parse_tokens AfterClass segs (args ++ [ArgType t]) toks'
      | _, _ => raise UnexpectedInput
      end
  end.

(** [xpath_parser.parse]: the LALR parser with the embedded transformer. *)
Definition xpath_parser_parse (text : string) : result (list ASTXpathElement) :=
  let* toks := lex text None in
  let* segs := parse_tokens AtStart [] [] toks in
  xpath segs.

(** ** Nodes

    Modelled from the spec: [pyoak.node.ASTNode] is not part of the sources
    at hand.  The module reads a node's type, the field of the parent it
    is attached to and its index in that field, and uses the parent link,
    [ancestors()], [get_child_nodes()] and [dfs()].  A [tree] is the data
    of a subtree; an [ASTNode] is a node object of a tree: its subtree
    together with the chain of nodes above it, nearest first, each with
    the position this way down takes in its list of children.  Two node
    objects are the same object exactly when they are equal. *)

#[local] Unset Elimination Schemes.
Inductive tree : Type :=
  | Tree (type : T) (field : option string) (index : option Z) (children : list tree).
#[local] Set Elimination Schemes.

Definition tree_type (t : tree) : T := let 'Tree c _ _ _ := t in c.
Definition tree_field (t : tree) : option string := let 'Tree _ f _ _ := t in f.
Definition tree_index (t : tree) : option Z := let 'Tree _ _ i _ := t in i.
Definition tree_children (t : tree) : list tree := let 'Tree _ _ _ cs := t in cs.

Record ASTNode : Type := mkNode {
  content : tree;
  above : list (nat * tree)
}.

Definition node_type (node : ASTNode) : T := tree_type (content node).
Definition node_parent_field (node : ASTNode) : option string := tree_field (content node).
Definition node_parent_index (node : ASTNode) : option Z := tree_index (content node).

(** [isinstance(node, cls)] *)
Definition isinstance (node : ASTNode) (cls : T) : bool :=
  issubclass (node_type node) cls.

(** [node.parent] *)
Definition parent (node : ASTNode) : option ASTNode :=
  match above node with
  | [] => None
  | (_, p) :: up => Some (mkNode p up)
  end.

(** [node.ancestors()]: the parent, then its parent, up to the root. *)
Fixpoint ancestors_of (up : list (nat * tree)) : list ASTNode :=
  match up with
  | [] => []
  | (_, p) :: up' => mkNode p up' :: ancestors_of up'
  end.

Definition ancestors (node : ASTNode) : list ASTNode := ancestors_of (above node).

(** The node objects of the subtrees [cs], the children from position [i]
    on of the node [t] below [up]. *)
Fixpoint children_from (i : nat) (t : tree) (up : list (nat * tree)) (cs : list tree)
  : list ASTNode :=
  match cs with
  | [] => []
  | c :: cs' => mkNode c ((i, t) :: up) :: children_from (S i) t up cs'
  end.

(** [node.get_child_nodes()] *)
Definition get_child_nodes (node : ASTNode) : list ASTNode :=
  children_from 0 (content node) (above node) (tree_children (content node)).

(** The node of [t] below [up] and all the nodes under it, depth first. *)
Fixpoint dfs_tree (t : tree) (up : list (nat * tree)) {struct t} : list ASTNode :=
  mkNode t up ::
  match t with
  | Tree _ _ _ cs =>
      (fix dfs_children (i : nat) (cs : list tree) {struct cs} : list ASTNode :=
         match cs with
         | [] => []
         | c :: cs' => dfs_tree c ((i, t) :: up) ++ dfs_children (S i) cs'
         end) 0 cs
  end.

(** [node.dfs(skip_self=...)] *)
Definition dfs (node : ASTNode) (skip_self : bool) : list ASTNode :=
  let nodes := dfs_tree (content node) (above node) in
  if skip_self then tail nodes else nodes.

(** What the search keeps in its work list: the helper node
    [_DUMMY_XPATH_ROOT(root, origin=NO_ORIGIN)], or a node of the tree. *)
Inductive work_node : Type :=
  | _DUMMY_XPATH_ROOT (child : ASTNode)
  | TreeNode (node : ASTNode).

(** Modelled from the spec: the helper is a node of its own, built by the
    dataclass machinery of [pyoak.node], which is not part of the sources
    at hand.  [class _DUMMY_XPATH_ROOT(ASTNode): child: ASTNode] makes
    [root] the field [child] of the helper, and a node can be the child of
    one parent only: building the helper around a node that has a parent
    raises [ASTNodeParentCollisionError].  The helper stays the parent of
    [root] for as long as the generator of [findall] is alive; the model
    is of searches that run to their end one after the other, so that a
    node has a parent exactly when the tree gives it one. *)
Definition new_DUMMY_XPATH_ROOT (root : ASTNode) : result work_node :=
  match parent root with
  | Some _ => raise ASTNodeParentCollisionError
  | None => ret_ok (_DUMMY_XPATH_ROOT root)
  end.

(** [root] with the labels it carries while the helper holds it: the
    field [child] and no index.  (Its parent is then the helper; the
    search reads the labels only.) *)
Definition as_helper_child (root : ASTNode) : ASTNode :=
  mkNode (Tree (node_type root) (Some "child"%string) None
               (tree_children (content root)))
         (above root).

(** A node as a turn of the search meets it: [yielded] is the node
    object, which is what ends up in the work list and in the result;
    [seen] is the node with the labels it carries at that moment, which is
    what [_match_node_element] reads.  They differ for [root] alone. *)
Record met_node : Type := mkMet {
  seen : ASTNode;
  yielded : ASTNode
}.

Definition met_in_tree (n : ASTNode) : met_node := mkMet n n.

Definition work_get_child_nodes (w : work_node) : list met_node :=
  match w with
  | _DUMMY_XPATH_ROOT child => [mkMet (as_helper_child child) child]
  | TreeNode node => map met_in_tree (get_child_nodes node)
  end.

Definition work_dfs_skip_self (w : work_node) : list met_node :=
  match w with
  | _DUMMY_XPATH_ROOT child =>
      mkMet (as_helper_child child) child :: map met_in_tree (dfs child true)
  | TreeNode node => map met_in_tree (dfs node true)
  end.

(** ** Matching *)

(** [_match_node_element] *)
Definition _match_node_element (node : ASTNode) (element : ASTXpathElement) : bool :=
  isinstance node (ast_class element)
  && match parent_field element with
     | None => true
     | Some f =>
         match node_parent_field node with
         | Some name => bool_decide (f = name)
         | None => false
         end
     end
  && match parent_index element with
     | None => true
     | Some i => bool_decide (Some i = node_parent_index node)
     end.

(** [for x in xs: if f(x): return True], then falling out of the loop
    with [False]; an exception raised by [f] ends the loop. *)
Fixpoint first_true {A} (f : A → result bool) (xs : list A) : result bool :=
  match xs with
  | [] => ret_ok false
  | x :: xs' =>
      let* b := f x in
      if b then ret_ok true else first_true f xs'
  end.

(** [_match_node_xpath] *)
Fixpoint _match_node_xpath (node : ASTNode) (elements : list ASTXpathElement)
  {struct elements} : result bool :=
  match elements with
  | [] => raise IndexError                (* elements[0] *)
  | element :: tail =>
      if negb (_match_node_element node element) then ret_ok false
      else
        match tail with
        | [] => ret_ok (anywhere element || bool_decide (parent node = None))
        | _ :: _ =>
            match parent node with
            | None => ret_ok false
            | Some p =>
                if anywhere element then
                  first_true (fun ancestor => _match_node_xpath ancestor tail)
                             (ancestors node)
                else _match_node_xpath p tail
            end
        end
  end.

(** ** Searching *)

(** One turn of the [for node in work] loop: what [new_work.extend] adds. *)
Definition found_under (el : ASTXpathElement) (node : work_node) : list ASTNode :=
  if anywhere el then
    map yielded
        (List.filter (fun n => _match_node_element (seen n) el) (work_dfs_skip_self node))
  else
    map yielded
        (List.filter (fun n => _match_node_element (seen n) el) (work_get_child_nodes node)).

(** The [for el in self._elements] loop of [findall].  [new_work] is
    unbound until the first turn. *)
Fixpoint findall_loop (elements : list ASTXpathElement) (work : list work_node)
    (new_work : option (list ASTNode)) : result (list ASTNode) :=
  match elements with
  | [] =>
      match new_work with
      | None => raise UnboundLocalError     (* yield from new_work *)
      | Some nodes => ret_ok nodes
      end
  | el :: elements' =>
      let new_work := flat_map (found_under el) work in
      findall_loop elements' (map TreeNode new_work) (Some new_work)
  end.

(** The body of [ASTXpath.findall] on the list [self._elements]: the
    helper is built, then the loop runs; the result is the sequence of the
    nodes the generator yields. *)
Definition findall_elements (elements : list ASTXpathElement) (root : ASTNode)
  : result (list ASTNode) :=
  let* helper := new_DUMMY_XPATH_ROOT root in
  findall_loop elements [helper] None.

(** ** Path objects and the cache *)

(** An [ASTXpath] instance: its two attributes, unset until [__init__]
    assigns them. *)
Record ASTXpath : Type := mkASTXpath {
  _elements_reversed : option (list ASTXpathElement);
  _elements : option (list ASTXpathElement)
}.

(** The part of the interpreter's state the module works on: the
    module-level dictionary [_AST_XPATH_CACHE], whose values are references
    to instances, the instances themselves, and the next fresh reference. *)
Record state : Type := mkState {
  _AST_XPATH_CACHE : gmap string nat;
  objects : gmap nat ASTXpath;
  next_ref : nat
}.

Definition initial_state : state := mkState ∅ ∅ 0.

(** [xpath.startswith("/")] *)
Definition startswith_slash (xpath : string) : bool :=
  match xpath with
  | String c _ => (nat_of_ascii c =? 47)%nat
  | EmptyString => false
  end.

(** [ASTXpath.__new__] *)
Definition ASTXpath_new (xpath : string) (st : state) : state * nat :=
  match _AST_XPATH_CACHE st !! xpath with
  | Some self => (st, self)
  | None =>
      let self := next_ref st in
      (mkState (<[xpath := self]> (_AST_XPATH_CACHE st))
               (<[self := mkASTXpath None None]> (objects st))
               (S self),
       self)
  end.

(** What [__init__] computes before it assigns: the text, with ["//"] put
    before it unless it starts with a slash, parsed; every exception
    leaves as an [ASTXpathDefinitionError]. *)
Definition compile (xpath : string) : result (list ASTXpathElement) :=
  let xpath := if startswith_slash xpath then xpath else ("//" +:+ xpath)%string in
  match xpath_parser_parse xpath with
  | inr elements => ret_ok elements
  | inl UnexpectedInput => raise ASTXpathDefinitionError
  | inl ASTXpathDefinitionError => raise ASTXpathDefinitionError
  | inl _ => raise ASTXpathDefinitionError
  end.

(** [ASTXpath.__init__] *)
Definition ASTXpath_init (self : nat) (xpath : string) (st : state)
  : state * result unit :=
  match compile xpath with
  | inr elements_reversed =>
      (mkState (_AST_XPATH_CACHE st)
               (<[self := mkASTXpath (Some elements_reversed)
                                     (Some (reverse elements_reversed))]> (objects st))
               (next_ref st),
       ret_ok tt)
  | inl e => (st, raise e)
  end.

(** The call [ASTXpath(xpath)]: [__new__], then [__init__] on what it
    returned, which is the result of the call. *)
Definition ASTXpath_call (xpath : string) (st : state) : state * result nat :=
  let '(st, self) := ASTXpath_new xpath st in
  match ASTXpath_init self xpath st with
  | (st, inr _) => (st, ret_ok self)
  | (st, inl e) => (st, raise e)
  end.

(** Reading an attribute of [self]. *)
Definition getattr (self : nat) (attr : ASTXpath → option (list ASTXpathElement))
    (st : state) : result (list ASTXpathElement) :=
  match objects st !! self with
  | Some obj =>
      match attr obj with
      | Some v => ret_ok v
      | None => raise AttributeError
      end
  | None => raise AttributeError
  end.

(** [ASTXpath.match] *)
Definition ASTXpath_match (self : nat) (node : ASTNode) (st : state)
  : state * result bool :=
  (st, let* elements := getattr self _elements_reversed st in
       _match_node_xpath node elements).

(** [ASTXpath.findall], run to the end: the helper is built before
    [self._elements] is read. *)
Definition ASTXpath_findall (self : nat) (root : ASTNode) (st : state)
  : state * result (list ASTNode) :=
  (st, let* helper := new_DUMMY_XPATH_ROOT root in
       let* elements := getattr self _elements st in
       findall_loop elements [helper] None).

(** ** The element list in the words of the specification

    Read from the self segment toward the start of the path, every segment
    with a class gives one element, and that element is [anywhere] exactly
    when the segment read next is a placeholder; placeholders give no
    element. *)

Definition is_placeholder (el : raw_segment) : bool :=
  match raw_class el with
  | None => true
  | Some _ => false
  end.

Definition placeholder_next (elements : list raw_segment) : bool :=
  match elements with
  | [] => false
  | el :: _ => is_placeholder el
  end.

Fixpoint elements_by_spec (elements : list raw_segment) : list ASTXpathElement :=
  match elements with
  | [] => []
  | el :: elements' =>
      match raw_class el with
      | None => elements_by_spec elements'
      | Some ast_class =>
          mkElement ast_class el.1.1 el.1.2 (placeholder_next elements')
          :: elements_by_spec elements'
      end
  end.

(** The children of a segment in grammar order. *)
Definition segment_args (f : option string) (i : option Z) (c : option T) : list arg :=
  match f with Some name => [ArgStr name] | None => [] end
  ++ match i with Some n => [ArgInt n] | None => [] end
  ++ match c with Some t => [ArgType t] | None => [] end.

(** ** Auxiliary definitions for the proofs *)

(** The [while] loop of [xpath], by name. *)
Definition xpath_while : list ASTXpathElement → list raw_segment →
    result (list ASTXpathElement) :=
  fix xpath_while ret elements {struct elements} :=
    match elements with
    | [] => set_last_anywhere ret
    | next_el :: elements' =>
        let* ret' := set_last_anywhere ret in
        match raw_class next_el with
        | None => xpath_while ret' elements'
        | Some ast_class => xpath_for (ret' ++ [emit next_el ast_class]) elements'
        end
    end.

Definition with_anywhere (e : ASTXpathElement) (b : bool) : ASTXpathElement :=
  mkElement (ast_class e) (parent_field e) (parent_index e) b.

(** A node as [node], but at another index of its parent's field. *)
Definition at_index (node : ASTNode) (i : option Z) : ASTNode :=
  mkNode (Tree (node_type node) (node_parent_field node) i
               (tree_children (content node)))
         (above node).

(** The inner loop of [dfs_tree], by name. *)
Definition dfs_children (t : tree) (up : list (nat * tree))
  : nat → list tree → list ASTNode :=
  fix dfs_children i cs {struct cs} :=
    match cs with
    | [] => []
    | c :: cs' => dfs_tree c ((i, t) :: up) ++ dfs_children (S i) cs'
    end.

(** [chain c pre t]: the way up from a subtree [c] along the links [pre],
    nearest first, ends at [t]; every link names the parent and the
    position of the child in the parent's list of children. *)
Fixpoint chain (c : tree) (pre : list (nat * tree)) (t : tree) : Prop :=
  match pre with
  | [] => c = t
  | (i, p) :: pre' => tree_children p !! i = Some c ∧ chain p pre' t
  end.

(** [in_tree root n]: [n] is a node of the tree under [root], [root]
    itself included. *)
Definition in_tree (root n : ASTNode) : Prop := In n (dfs root false).

(** What one turn of the [for el in self._elements] loop makes of the
    work list. *)
Definition advance (work : list work_node) (el : ASTXpathElement) : list work_node :=
  map TreeNode (flat_map (found_under el) work).

(** The work list of [findall] after the elements of the path down to and
    including the first of [elements_reversed], a leaf-to-root list. *)
Fixpoint work_at (root : ASTNode) (elements_reversed : list ASTXpathElement)
  : list work_node :=
  match elements_reversed with
  | [] => [_DUMMY_XPATH_ROOT root]
  | el :: rest => advance (work_at root rest) el
  end.

(** The state after the calls [ASTXpath(x)] for the texts [xpaths], one
    after the other, whatever they return or raise. *)
Definition run_calls (xpaths : list string) (st : state) : state :=
  fold_left (fun st xpath => (ASTXpath_call xpath st).1) xpaths st.

(** References are handed out once: the cached ones are below the next
    fresh one, and no two texts share one. *)
Definition cache_wf (st : state) : Prop :=
  (∀ xpath self, _AST_XPATH_CACHE st !! xpath = Some self → (self < next_ref st)%nat)
  ∧ (∀ xpath1 xpath2 self,
       _AST_XPATH_CACHE st !! xpath1 = Some self →
       _AST_XPATH_CACHE st !! xpath2 = Some self → xpath1 = xpath2).

(** ** Further auxiliary definitions *)

(** The node [n] once the root of its tree hangs below further nodes
    [extra]: the same subtree, with [extra] on top of what was above it. *)
Definition graft (extra : list (nat * tree)) (n : ASTNode) : ASTNode :=
  mkNode (content n) (above n ++ extra).

(** The root-most element of a leaf-to-root list has no field filter and
    no index filter. *)
Definition root_most_unfiltered (elements_reversed : list ASTXpathElement) : Prop :=
  match last elements_reversed with
  | Some e => parent_field e = None ∧ parent_index e = None
  | None => True
  end.

(** [relaxed e e']: [e'] filters as [e] does and is [anywhere] whenever
    [e] is. *)
Definition relaxed (e e' : ASTXpathElement) : Prop :=
  ast_class e' = ast_class e
  ∧ parent_field e' = parent_field e
  ∧ parent_index e' = parent_index e
  ∧ (anywhere e = true → anywhere e' = true).

(** An argument the callbacks can produce: an index from [-1] to [9], or a
    class that a name resolves to. *)
Definition arg_ok (a : arg) : Prop :=
  match a with
  | ArgInt i => (-1 ≤ i ≤ 9)%Z
  | ArgType t => ∃ name, check_and_get_ast_node_type name = Some t
  | ArgStr _ => True
  end.

Definition index_ok (i : option Z) : Prop :=
  match i with
  | None => True
  | Some i => (0 ≤ i ≤ 9)%Z
  end.

Definition class_ok (t : T) : Prop :=
  t = ASTNode_cls ∨ ∃ name, check_and_get_ast_node_type name = Some t.

Definition segment_ok (el : raw_segment) : Prop :=
  index_ok el.1.2
  ∧ match raw_class el with
    | None => True
    | Some t => class_ok t
    end.

(** What the instance cached for a text holds once [__init__] has run on
    it: the two lists of the text, or nothing when the text does not
    compile. *)
Definition object_of (xpath : string) : ASTXpath :=
  match compile xpath with
  | inr elements => mkASTXpath (Some elements) (Some (reverse elements))
  | inl _ => mkASTXpath None None
  end.

Definition state_inv (st : state) : Prop :=
  cache_wf st
  ∧ ∀ xpath self,
      _AST_XPATH_CACHE st !! xpath = Some self →
      objects st !! self = Some (object_of xpath).

(** What the matcher reads of a node: its type, field and index, and
    those of the nodes above it. *)
Definition label (t : tree) : T * option string * option Z :=
  (tree_type t, tree_field t, tree_index t).

Definition labels (n : ASTNode) : list (T * option string * option Z) :=
  label (content n) :: map (fun link => label link.2) (above n).

(** Two slashes in a row among the tokens. *)
Fixpoint double_slash (toks : list token) : bool :=
  match toks with
  | [] => false
  | SLASH :: toks' =>
      match toks' with
      | SLASH :: _ => true
      | _ => double_slash toks'
      end
  | _ :: toks' => double_slash toks'
  end.

(** The token after a slash is not a slash. *)
Definition no_slash_next (st : stage) (toks : list token) : Prop :=
  match st, toks with
  | AfterSlash, SLASH :: _ => False
  | _, _ => True
  end.

(** A segment that is being closed has children, unless it is bare. *)
Definition stage_has_args (st : stage) (args : list arg) : Prop :=
  match st with
  | AfterField | AfterIndex | AfterClass => args ≠ []
  | _ => True
  end.

End Xpath.

Arguments ASTXpathElement T : clear implicits.
Arguments raw_segment T : clear implicits.
Arguments arg T : clear implicits.
Arguments tree T : clear implicits.
Arguments ASTNode T : clear implicits.
Arguments work_node T : clear implicits.
Arguments met_node T : clear implicits.
Arguments ASTXpath T : clear implicits.
Arguments state T : clear implicits.

(** ** A small class hierarchy and trees to run the definitions on *)

Definition demo_registry : list string := ["ASTNode"; "Root"; "A"; "B"]%string.

#[global] Instance demo_types : NodeTypes string := {|
  ASTNode_cls := "ASTNode"%string;
  issubclass a b := bool_decide (b = "ASTNode"%string) || bool_decide (a = b);
  check_and_get_ast_node_type name :=
    if bool_decide (name ∈ demo_registry) then Some name else None
|}.

(** A [Root] holding an [A] that holds another [Root]. *)
Definition demo_inner_root : tree string :=
  Tree "Root"%string (Some "value"%string) None [].

Definition demo_middle : tree string :=
  Tree "A"%string (Some "body"%string) (Some 0%Z) [demo_inner_root].

Definition demo_tree : tree string :=
  Tree "Root"%string None None [demo_middle].

Definition demo_root : ASTNode string := mkNode demo_tree [].

Definition demo_nested : ASTNode string :=
  mkNode demo_inner_root [(0, demo_middle); (0, demo_tree)].

(** ["//A///@f[12]B"], segment by segment. *)
Definition demo_segments : list (raw_segment string) :=
  [(None, None, None); (None, None, Some "A"%string); (None, None, None);
   (None, None, None); (Some "f"%string, Some 1%Z, Some "B"%string)].

(** * tests/pyoak/conftest.py *)

(** ** The hook [pytest_runtest_setup] *)

Inductive setup_outcome : Type :=
  | Runs                 (* the hook returns *)
  | Skipped              (* pytest.skip(...) *)
  | AssertionError.      (* an assert of the hook fails *)

(** [name[4:]] *)
Fixpoint string_drop (n : nat) (s : string) : string :=
  match n, s with
  | O, _ => s
  | S n', String _ s' => string_drop n' s'
  | S _, EmptyString => EmptyString
  end.

(** [set(name[4:] for name in names if name.startswith("dep_"))] *)
Definition dep_marks (names : list string) : gset string :=
  list_to_set (map (string_drop 4)
                   (List.filter (fun name => String.prefix "dep_" name) names)).

(** The hook, on the names of the markers of the test item, in the order
    of [item.iter_markers()], and on the words of the [-m] option, that
    is [item.config.getoption("-m", "").split()]. *)
Definition pytest_runtest_setup (marker_names : list string) (option_words : list string)
  : setup_outcome :=
  let test_dep_marks := dep_marks marker_names in
  if decide (size test_dep_marks ≤ 1)%nat then
    let request_dep_marks := dep_marks option_words in
    if decide (size request_dep_marks ≤ 1)%nat then
      if bool_decide (test_dep_marks ≠ ∅)
         && bool_decide (test_dep_marks ≠ request_dep_marks)
         && bool_decide (request_dep_marks ≠ {["all"%string]})
      then Skipped
      else Runs
    else AssertionError
  else AssertionError.

(** * Properties *)

Section XpathFacts.

Context {T : Type} `{NodeTypes T}.

Implicit Types (el : raw_segment T) (e : ASTXpathElement T) (ret : list (ASTXpathElement T)).

(** ** The element compiler *)

Lemma xpath_for_placeholder ret el elements :
  raw_class el = None →
  xpath_for ret (el :: elements) = xpath_while ret elements.
Proof. intros Hc. simpl. rewrite Hc. reflexivity. Qed.

Lemma xpath_for_class ret el elements c :
  raw_class el = Some c →
  xpath_for ret (el :: elements) = xpath_for (ret ++ [emit el c]) elements.
Proof. intros Hc. simpl. rewrite Hc. reflexivity. Qed.

Lemma set_last_anywhere_snoc ret e :
  set_last_anywhere (ret ++ [e]) = inr (ret ++ [with_anywhere e true]).
Proof.
  unfold set_last_anywhere. rewrite last_snoc, removelast_last. reflexivity.
Qed.

Lemma with_anywhere_same e : with_anywhere e (anywhere e || false) = e.
Proof. destruct e as [c f i a]. unfold with_anywhere. simpl. by rewrite orb_false_r. Qed.

(** Both loops, started with a last emitted element [e]: [e] becomes
    [anywhere] when a placeholder comes next, and the rest of the iterator
    gives the elements the specification describes. *)
Lemma xpath_loops_spec (elements : list (raw_segment T)) :
  ∀ ret e,
    xpath_for (ret ++ [e]) elements
    = inr (ret ++ [with_anywhere e (anywhere e || placeholder_next elements)]
               ++ elements_by_spec elements)
    ∧ xpath_while (ret ++ [e]) elements
      = inr (ret ++ [with_anywhere e true] ++ elements_by_spec elements).
Proof.
  induction elements as [|el elements IH]; intros ret e.
  - split.
    + simpl. by rewrite with_anywhere_same.
    + simpl. apply set_last_anywhere_snoc.
  - destruct (IH ret e) as [_ IHw].
    split.
    + destruct (raw_class el) as [c|] eqn:Hc.
      * rewrite (xpath_for_class _ _ _ c Hc).
        destruct (IH (ret ++ [e]) (emit el c)) as [-> _].
        simpl. rewrite Hc. unfold placeholder_next at 1, is_placeholder.
        rewrite Hc, with_anywhere_same.
        by rewrite <- !app_assoc.
      * rewrite (xpath_for_placeholder _ _ _ Hc), IHw.
        simpl. rewrite Hc. unfold is_placeholder. rewrite Hc.
        by rewrite orb_true_r.
    + simpl. fold (@xpath_while T). rewrite set_last_anywhere_snoc. simpl.
      destruct (raw_class el) as [c|] eqn:Hc.
      * destruct (IH (ret ++ [with_anywhere e true]) (emit el c)) as [-> _].
        by rewrite <- !app_assoc.
      * destruct (IH ret (with_anywhere e true)) as [_ ->]. reflexivity.
Qed.

Lemma xpath_for_first_class el elements c :
  raw_class el = Some c →
  xpath_for [] (el :: elements) = inr (elements_by_spec (el :: elements)).
Proof.
  intros Hc. rewrite (xpath_for_class _ _ _ c Hc).
  destruct (xpath_loops_spec elements [] (emit el c)) as [-> _].
  simpl. by rewrite Hc.
Qed.

Lemma elements_by_spec_length (elements : list (raw_segment T)) :
  length (elements_by_spec elements)
  = length (List.filter (fun el => negb (is_placeholder el)) elements).
Proof.
  induction elements as [|el elements IH]; [done|].
  simpl. unfold is_placeholder. destruct (raw_class el); simpl; by rewrite IH.
Qed.

(** C4: [xpath], reading the raw segments from the self segment toward
    the start of the path, returns one element per segment that has a
    class, in that order and with that segment's field and index; an
    element is [anywhere] exactly when a run of placeholder segments comes
    next (also when the segments end inside that run), and the
    placeholders give no element of their own. *)
Theorem xpath_compiles_as_specified (args : list (raw_segment T)) (self_segment : raw_segment T)
    (c : T) :
  last args = Some self_segment →
  raw_class self_segment = Some c →
  xpath args = inr (elements_by_spec (reverse args))
  ∧ length (elements_by_spec (reverse args))
    = length (List.filter (fun el => negb (is_placeholder el)) args)
  ∧ (∀ e, e ∈ elements_by_spec (reverse args) →
       ∃ el, el ∈ args ∧ raw_class el = Some (ast_class e)
             ∧ parent_field e = el.1.1 ∧ parent_index e = el.1.2).
Proof.
  intros Hlast Hc.
  assert (Hrev : ∃ rest, reverse args = self_segment :: rest).
  { destruct args as [|a args _] using rev_ind; [done|].
    rewrite last_snoc in Hlast. injection Hlast as ->.
    rewrite reverse_snoc. eauto. }
  destruct Hrev as [rest Hrev].
  split; [|split].
  - unfold xpath. rewrite Hrev. by apply xpath_for_first_class with c.
  - rewrite elements_by_spec_length.
    rewrite <- (length_reverse (List.filter _ args)).
    f_equal. clear. induction args as [|a args IH] using rev_ind; [done|].
    rewrite reverse_snoc, List.filter_app, reverse_app. simpl.
    destruct (negb (is_placeholder a)); simpl; by rewrite IH.
  - intros e He.
    assert (Hin : ∃ el, el ∈ reverse args ∧ raw_class el = Some (ast_class e)
                        ∧ parent_field e = el.1.1 ∧ parent_index e = el.1.2).
    { clear -He. induction (reverse args) as [|el l IH]; simpl in He.
      - by apply elem_of_nil in He.
      - destruct (raw_class el) as [c|] eqn:Hc.
        + apply elem_of_cons in He as [->|He].
          * exists el. simpl. split; [left|done].
          * destruct (IH He) as (el' & ? & ?). exists el'. split; [by right|done].
        + destruct (IH He) as (el' & ? & ?). exists el'. split; [by right|done]. }
    destruct Hin as (el & Hel & ?). exists el. split; [|done].
    by apply elem_of_reverse.
Qed.

(** ** Index specifications *)

Lemma parse_index_digits (ds acc : list ascii) segs (args : list (arg T)) rest :
  parse_tokens (InIndex acc) segs args (map DIGIT ds ++ RSQB :: rest)
  = (let* i := index_spec (acc ++ ds) in
     parse_tokens AfterIndex segs (args ++ [ArgInt i]) rest).
Proof.
  revert acc. induction ds as [|d ds IH]; intros acc.
  - simpl. by rewrite app_nil_r.
  - simpl. rewrite IH. by rewrite <- app_assoc.
Qed.

(** C10: an index spec of two or more digits compiles to the value of its
    first digit alone: [index_spec] converts [args[0]], and every digit is
    a token of its own, so the parser hands it the digits one by one;
    ["/[12]A"] compiles to what ["/[1]A"] compiles to, with index 1. *)
Theorem index_spec_first_digit_only :
  (∀ (d d' : ascii) (ds : list ascii), index_spec (d :: d' :: ds) = index_spec [d])
  ∧ (∀ (d d' : ascii) (ds : list ascii),
       is_DIGIT d = true →
       index_spec (d :: d' :: ds) = inr (Z.of_nat (nat_of_ascii d) - 48)%Z)
  ∧ (∀ (d : ascii) (ds : list ascii) segs (args : list (arg T)) rest,
       parse_tokens (InIndex []) segs args (map DIGIT (d :: ds) ++ RSQB :: rest)
       = parse_tokens (InIndex []) segs args (DIGIT d :: RSQB :: rest))
  ∧ lex "/[12]A" None = inr [SLASH; LSQB; DIGIT "1"; DIGIT "2"; RSQB; CNAME "A"]
  ∧ xpath_parser_parse "/[12]A" = xpath_parser_parse "/[1]A"
  ∧ xpath_parser_parse "/[12]A"
    = match check_and_get_ast_node_type "A" with
      | Some t => inr [mkElement t None (Some 1%Z) false]
      | None => inl ASTXpathDefinitionError
      end.
Proof.
  split; [done|]. split; [|split; [|split; [done|split]]].
  - intros d d' ds Hd. unfold index_spec, int_of_token, is_DIGIT in *.
    apply andb_true_iff in Hd as [Hlo Hhi].
    apply Nat.leb_le in Hlo, Hhi.
    destruct (48 <=? Z.of_nat (nat_of_ascii d))%Z eqn:Hlo'; [|lia].
    destruct (Z.of_nat (nat_of_ascii d) <=? 57)%Z eqn:Hhi'; [done|lia].
  - intros d ds segs args rest.
    rewrite parse_index_digits.
    change (DIGIT d :: RSQB :: rest) with (map DIGIT [d] ++ RSQB :: rest).
    by rewrite parse_index_digits.
  - unfold xpath_parser_parse. simpl.
    by destruct (check_and_get_ast_node_type "A").
  - unfold xpath_parser_parse. simpl.
    by destruct (check_and_get_ast_node_type "A").
Qed.

(** C7: the index spec ["[]"] gives no index filter.  [index_spec] returns
    [-1] for it, which [element] turns into [parent_index = None], the
    index a segment without index spec has; a segment that has a field or
    a class gives the same raw segment with ["[]"] as without an index
    spec, and the element made from it accepts a node whatever the node's
    index is. *)
Theorem empty_index_spec_is_no_filter :
  index_spec [] = inr (-1)%Z
  ∧ (∀ segs (args : list (arg T)) rest,
       parse_tokens (InIndex []) segs args (RSQB :: rest)
       = parse_tokens AfterIndex segs (args ++ [ArgInt (-1)]) rest)
  ∧ (∀ f (c : option T), (element (segment_args f (Some (-1)%Z) c)).1.2 = None)
  ∧ (∀ f (c : option T),
       (element (segment_args f (Some (-1)%Z) c)).1.2
       = (element (segment_args f None c)).1.2)
  ∧ (∀ name (c : option T),
       element (segment_args (Some name) (Some (-1)%Z) c)
       = element (segment_args (Some name) None c))
  ∧ (∀ f (t : T),
       element (segment_args f (Some (-1)%Z) (Some t))
       = element (segment_args f None (Some t)))
  ∧ (∀ f (c : option T) (t : T) (node : ASTNode T) (i : option Z),
       _match_node_element (at_index node i)
         (emit (element (segment_args f (Some (-1)%Z) c)) t)
       = _match_node_element node
           (emit (element (segment_args f (Some (-1)%Z) c)) t))
  ∧ xpath_parser_parse "/@body[]B" = xpath_parser_parse "/@body B"
  ∧ xpath_parser_parse "/[]B" = xpath_parser_parse "/B".
Proof.
  assert (Hidx : ∀ f (c : option T), (element (segment_args f (Some (-1)%Z) c)).1.2 = None).
  { intros [name|] [t|]; reflexivity. }
  split; [done|]. split; [done|]. split; [exact Hidx|].
  split; [by intros [name|] [t|]|].
  split; [by intros name [t|]|]. split; [by intros [name|] t|]. split.
  - intros f c t node i. unfold _match_node_element, emit. simpl.
    rewrite Hidx. destruct node as [[ty fld idx cs] up]. reflexivity.
  - split; unfold xpath_parser_parse; simpl;
      by destruct (check_and_get_ast_node_type "B").
Qed.

(** A segment made of ["[]"] alone is a segment with the base class, not
    a placeholder: ["/[]/A"] asks for an [A] right under the root, ["//A"]
    for an [A] anywhere. *)
Lemma bare_empty_index_is_no_placeholder :
  element (segment_args None (Some (-1)%Z) (None : option T))
  = (None, None, Some ASTNode_cls)
  ∧ element (segment_args None None (None : option T)) = (None, None, None).
Proof. split; reflexivity. Qed.

(** ** Trees and their nodes *)

Lemma tree_ind (P : tree T → Prop) :
  (∀ c f i cs, Forall P cs → P (Tree c f i cs)) → ∀ t, P t.
Proof.
  intros IH. fix rec 1. intros [c f i cs]. apply IH.
  induction cs as [|x xs IHxs]; constructor; [apply rec | exact IHxs].
Qed.

Lemma dfs_tree_unfold (t : tree T) up :
  dfs_tree t up = mkNode t up :: dfs_children t up 0 (tree_children t).
Proof. destruct t. reflexivity. Qed.

Lemma dfs_children_In (t : tree T) up (cs : list (tree T)) (j : nat) (n : ASTNode T) :
  In n (dfs_children t up j cs)
  ↔ ∃ k c, cs !! k = Some c ∧ In n (dfs_tree c ((j + k, t) :: up)).
Proof.
  revert j. induction cs as [|c cs IH]; intros j; simpl.
  - split; [done|]. by intros (k & c & Hk & _).
  - rewrite in_app_iff, IH. split.
    + intros [Hn|(k & c' & Hk & Hn)].
      * exists 0, c. by rewrite Nat.add_0_r.
      * exists (S k), c'. by rewrite Nat.add_succ_r.
    + intros ([|k] & c' & Hk & Hn); simpl in Hk.
      * left. injection Hk as <-. by rewrite Nat.add_0_r in Hn.
      * right. exists k, c'. by rewrite Nat.add_succ_r in Hn.
Qed.

Lemma children_from_In (t : tree T) up (cs : list (tree T)) (j : nat) (n : ASTNode T) :
  In n (children_from j t up cs)
  ↔ ∃ k c, cs !! k = Some c ∧ n = mkNode c ((j + k, t) :: up).
Proof.
  revert j. induction cs as [|c cs IH]; intros j; simpl.
  - split; [done|]. by intros (k & c & Hk & _).
  - rewrite IH. split.
    + intros [Hn|(k & c' & Hk & Hn)].
      * exists 0, c. by rewrite Nat.add_0_r.
      * exists (S k), c'. by rewrite Nat.add_succ_r.
    + intros ([|k] & c' & Hk & Hn); simpl in Hk.
      * left. injection Hk as <-. by rewrite Nat.add_0_r in Hn.
      * right. exists k, c'. by rewrite Nat.add_succ_r in Hn.
Qed.

Lemma chain_app (c m t : tree T) pre1 pre2 :
  chain c pre1 m → chain m pre2 t → chain c (pre1 ++ pre2) t.
Proof.
  revert c. induction pre1 as [|[i p] pre1 IH]; intros c; simpl.
  - by intros ->.
  - intros [Hi Hp] Hm. split; [done|]. by apply IH.
Qed.

Lemma chain_app_inv (c t : tree T) pre1 pre2 :
  chain c (pre1 ++ pre2) t → ∃ m, chain c pre1 m ∧ chain m pre2 t.
Proof.
  revert c. induction pre1 as [|[i p] pre1 IH]; intros c; simpl.
  - intros Hc. by exists c.
  - intros [Hi Hp]. destruct (IH _ Hp) as (m & ? & ?). by exists m.
Qed.

(** The nodes [dfs_tree] lists are the nodes whose way up passes through
    the node it starts from. *)
Lemma dfs_tree_chain (t : tree T) :
  ∀ up (n : ASTNode T),
    In n (dfs_tree t up) → ∃ pre, above n = pre ++ up ∧ chain (content n) pre t.
Proof.
  induction t as [c f i cs IH] using tree_ind. intros up n.
  rewrite dfs_tree_unfold. simpl. intros [<-|Hn].
  - by exists [].
  - apply dfs_children_In in Hn as (k & c' & Hk & Hn). simpl in Hn.
    rewrite Forall_lookup in IH.
    destruct (IH k c' Hk _ _ Hn) as (pre & Habove & Hchain).
    exists (pre ++ [(k, Tree c f i cs)]). split.
    + by rewrite <- app_assoc.
    + apply chain_app with c'; [done|]. by simpl.
Qed.

Lemma chain_dfs_tree (t : tree T) :
  ∀ up (n : ASTNode T) pre,
    above n = pre ++ up → chain (content n) pre t → In n (dfs_tree t up).
Proof.
  induction t as [c f i cs IH] using tree_ind. intros up n pre.
  rewrite dfs_tree_unfold. simpl.
  destruct pre as [|[k p] pre _] using rev_ind.
  - simpl. intros Habove Hc. left. destruct n. simpl in *. by subst.
  - intros Habove Hchain. right.
    apply chain_app_inv in Hchain as (m & Hpre & Hlast).
    simpl in Hlast. destruct Hlast as [Hk ->]. simpl in Hk.
    apply dfs_children_In. exists k, m. split; [done|]. simpl.
    rewrite Forall_lookup in IH.
    apply (IH k m Hk _ _ pre); [|done].
    by rewrite <- app_assoc in Habove.
Qed.

Lemma dfs_false_iff (w n : ASTNode T) :
  In n (dfs w false)
  ↔ ∃ pre, above n = pre ++ above w ∧ chain (content n) pre (content w).
Proof.
  unfold dfs. split.
  - apply dfs_tree_chain.
  - intros (pre & ? & ?). by apply chain_dfs_tree with pre.
Qed.

Lemma dfs_true_iff (w n : ASTNode T) :
  In n (dfs w true)
  ↔ ∃ pre, pre ≠ [] ∧ above n = pre ++ above w ∧ chain (content n) pre (content w).
Proof.
  unfold dfs. rewrite dfs_tree_unfold. simpl. rewrite dfs_children_In. split.
  - intros (k & c & Hk & Hn). simpl in Hn.
    apply dfs_tree_chain in Hn as (pre & Habove & Hchain).
    exists (pre ++ [(k, content w)]). split; [|split].
    + by destruct pre.
    + by rewrite <- app_assoc.
    + apply chain_app with c; [done|]. by simpl.
  - intros (pre & Hne & Habove & Hchain).
    destruct pre as [|[k p] pre _] using rev_ind; [done|].
    apply chain_app_inv in Hchain as (m & Hpre & Hlast).
    simpl in Hlast. destruct Hlast as [Hk ->].
    exists k, m. split; [done|]. simpl.
    apply chain_dfs_tree with pre; [|done].
    by rewrite <- app_assoc in Habove.
Qed.

Lemma get_child_nodes_iff (w n : ASTNode T) :
  In n (get_child_nodes w)
  ↔ ∃ k, above n = (k, content w) :: above w
         ∧ tree_children (content w) !! k = Some (content n).
Proof.
  unfold get_child_nodes. rewrite children_from_In. split.
  - intros (k & c & Hk & ->). by exists k.
  - intros (k & Habove & Hk). exists k, (content n). split; [done|].
    destruct n. simpl in *. by subst.
Qed.

Lemma parent_iff (w n : ASTNode T) :
  parent n = Some w ↔ ∃ k, above n = (k, content w) :: above w.
Proof.
  unfold parent. split.
  - destruct (above n) as [|[k p] up]; [done|]. intros [= <-]. by exists k.
  - intros (k & ->). by destruct w.
Qed.

Lemma parent_None_iff (n : ASTNode T) : parent n = None ↔ above n = [].
Proof. unfold parent. by destruct (above n) as [|[k p] up]. Qed.

Lemma ancestors_of_iff (w : ASTNode T) up :
  In w (ancestors_of up) ↔ ∃ pre k, up = pre ++ (k, content w) :: above w.
Proof.
  induction up as [|[k p] up IH]; simpl.
  - split; [done|]. intros (pre & k & Hup). by destruct pre.
  - rewrite IH. split.
    + intros [<-|(pre & k' & ->)].
      * by exists [], k.
      * by exists ((k, p) :: pre), k'.
    + intros ([|x pre] & k' & Hup); simpl in Hup.
      * left. injection Hup as Hk Hp Hu. destruct w. simpl in *. by subst.
      * right. injection Hup as <- ->. by exists pre, k'.
Qed.

Lemma ancestors_iff (w n : ASTNode T) :
  In w (ancestors n) ↔ ∃ pre k, above n = pre ++ (k, content w) :: above w.
Proof. apply ancestors_of_iff. Qed.

Section Navigation.

(** The nodes of one tree, whose root has no parent. *)
Variable root : ASTNode T.
Hypothesis root_top : above root = [].

Lemma in_tree_iff (n : ASTNode T) :
  in_tree root n ↔ chain (content n) (above n) (content root).
Proof.
  unfold in_tree. rewrite dfs_false_iff, root_top. split.
  - intros (pre & -> & Hc). by rewrite app_nil_r.
  - intros Hc. exists (above n). by rewrite app_nil_r.
Qed.

Lemma in_tree_root_iff (n : ASTNode T) :
  in_tree root n → (parent n = None ↔ n = root).
Proof.
  rewrite in_tree_iff, parent_None_iff. intros Hc. split.
  - intros Hup. rewrite Hup in Hc. simpl in Hc.
    destruct n, root. simpl in *. by subst.
  - by intros ->.
Qed.

Lemma in_tree_child (w n : ASTNode T) :
  in_tree root w → In n (get_child_nodes w) → in_tree root n ∧ parent n = Some w.
Proof.
  rewrite !in_tree_iff, get_child_nodes_iff, parent_iff.
  intros Hw (k & Habove & Hk). split; [|by exists k].
  rewrite Habove. by simpl.
Qed.

Lemma in_tree_parent (w n : ASTNode T) :
  in_tree root n → parent n = Some w → in_tree root w ∧ In n (get_child_nodes w).
Proof.
  rewrite !in_tree_iff, get_child_nodes_iff, parent_iff.
  intros Hn (k & Habove). rewrite Habove in Hn. simpl in Hn.
  destruct Hn as [Hk Hw]. split; [done|]. by exists k.
Qed.

Lemma in_tree_below (w n : ASTNode T) :
  in_tree root w → In n (dfs w true) → in_tree root n ∧ In w (ancestors n).
Proof.
  rewrite !in_tree_iff, dfs_true_iff, ancestors_iff.
  intros Hw (pre & Hne & Habove & Hchain). split.
  - rewrite Habove. by apply chain_app with (content w).
  - destruct pre as [|[k p] pre _] using rev_ind; [done|].
    apply chain_app_inv in Hchain as (m & _ & Hlast).
    simpl in Hlast. destruct Hlast as [_ ->].
    exists pre, k. by rewrite <- app_assoc in Habove.
Qed.

Lemma in_tree_ancestor (w n : ASTNode T) :
  in_tree root n → In w (ancestors n) → in_tree root w ∧ In n (dfs w true).
Proof.
  rewrite !in_tree_iff, dfs_true_iff, ancestors_iff.
  intros Hn (pre & k & Habove). rewrite Habove in Hn.
  apply chain_app_inv in Hn as (m & Hpre & Hrest).
  simpl in Hrest. destruct Hrest as [Hk Hw]. split; [done|].
  exists (pre ++ [(k, content w)]). split; [|split].
  - by destruct pre.
  - by rewrite <- app_assoc.
  - apply chain_app with m; [done|]. by simpl.
Qed.

End Navigation.

(** ** The bottom-up matcher *)

Lemma first_true_total {A} (f : A → result bool) (xs : list A) :
  (∀ x, ∃ b, f x = inr b) → ∃ b, first_true f xs = inr b.
Proof.
  intros Hf. induction xs as [|x xs IH]; simpl; [by exists false|].
  destruct (Hf x) as [[|] ->]; simpl; [by exists true|done].
Qed.

Lemma first_true_iff {A} (f : A → result bool) (xs : list A) :
  (∀ x, ∃ b, f x = inr b) →
  first_true f xs = inr true ↔ ∃ x, In x xs ∧ f x = inr true.
Proof.
  intros Hf. induction xs as [|x xs IH]; simpl.
  - split; [done|]. by intros (x & [] & _).
  - destruct (Hf x) as [[|] Hx]; rewrite Hx; simpl.
    + split; [|done]. intros _. exists x. by split; [left|].
    + rewrite IH. split.
      * intros (y & Hy & Hfy). exists y. by split; [right|].
      * intros (y & [<-|Hy] & Hfy); [congruence|]. by exists y.
Qed.

Lemma match_node_xpath_total (elements : list (ASTXpathElement T)) :
  elements ≠ [] → ∀ node, ∃ b, _match_node_xpath node elements = inr b.
Proof.
  induction elements as [|e rest IH]; [done|]. intros _ node. simpl.
  destruct (_match_node_element node e); simpl; [|by exists false].
  destruct rest as [|e' rest]; [by eexists|].
  destruct (parent node) as [p|]; [|by exists false].
  destruct (anywhere e).
  - apply first_true_total. intros a. by apply IH.
  - by apply IH.
Qed.

Lemma match_node_xpath_single (node : ASTNode T) e :
  _match_node_xpath node [e]
  = inr (_match_node_element node e
         && (anywhere e || bool_decide (parent node = None))).
Proof. simpl. by destruct (_match_node_element node e). Qed.

Lemma ancestors_parent (node p : ASTNode T) :
  parent node = Some p → In p (ancestors node).
Proof.
  unfold parent, ancestors. destruct (above node) as [|[k t] up]; [done|].
  intros [= <-]. by left.
Qed.

Lemma ancestors_no_parent (node : ASTNode T) :
  parent node = None → ancestors node = [].
Proof. unfold parent, ancestors. by destruct (above node) as [|[k t] up]. Qed.

Lemma match_node_xpath_cons (node : ASTNode T) e (rest : list (ASTXpathElement T)) :
  rest ≠ [] →
  _match_node_xpath node (e :: rest) = inr true
  ↔ _match_node_element node e = true
    ∧ if anywhere e
      then ∃ a, In a (ancestors node) ∧ _match_node_xpath a rest = inr true
      else ∃ p, parent node = Some p ∧ _match_node_xpath p rest = inr true.
Proof.
  intros Hrest. simpl.
  destruct (_match_node_element node e); simpl; [|by split; [|intros []]].
  destruct rest as [|e' rest]; [done|].
  destruct (parent node) as [p|] eqn:Hp.
  - destruct (anywhere e).
    + rewrite first_true_iff by (intros a; by apply match_node_xpath_total).
      by split; [|intros []].
    + split; [intros Hm; split; [done|by exists p]|].
      by intros [_ (p' & [= <-] & Hm)].
  - split; [done|]. intros [_ Hex]. destruct (anywhere e).
    + destruct Hex as (a & Ha & _). by rewrite (ancestors_no_parent _ Hp) in Ha.
    + by destruct Hex as (p & ? & _).
Qed.

(** ** The top-down search *)

Lemma filter_met_in_tree (p : ASTNode T → bool) (l : list (ASTNode T)) :
  map yielded (List.filter (fun m => p (seen m)) (map met_in_tree l)) = List.filter p l.
Proof.
  induction l as [|n l IH]; [done|]. simpl.
  destruct (p n); simpl; by rewrite IH.
Qed.

(** Below a node of the tree the search takes the nodes as they are. *)
Lemma found_under_tree e (w : ASTNode T) :
  found_under e (TreeNode w)
  = List.filter (fun n => _match_node_element n e)
                (if anywhere e then dfs w true else get_child_nodes w).
Proof.
  unfold found_under.
  destruct (anywhere e); cbn [work_dfs_skip_self work_get_child_nodes];
    apply (filter_met_in_tree (fun n => _match_node_element n e)).
Qed.

(** Below the helper it takes [root] as the helper's child. *)
Lemma found_under_helper e (root : ASTNode T) :
  found_under e (_DUMMY_XPATH_ROOT root)
  = (if _match_node_element (as_helper_child root) e then [root] else [])
    ++ (if anywhere e
        then List.filter (fun n => _match_node_element n e) (dfs root true)
        else []).
Proof.
  unfold found_under.
  destruct (anywhere e); cbn [work_dfs_skip_self work_get_child_nodes List.filter seen];
    destruct (_match_node_element (as_helper_child root) e); cbn [map yielded app];
    by rewrite ?(filter_met_in_tree (fun n => _match_node_element n e)).
Qed.

Lemma found_under_tree_In e (w n : ASTNode T) :
  In n (found_under e (TreeNode w))
  ↔ _match_node_element n e = true
    ∧ In n (if anywhere e then dfs w true else get_child_nodes w).
Proof. rewrite found_under_tree, filter_In. tauto. Qed.

Lemma found_under_helper_In e (root n : ASTNode T) :
  In n (found_under e (_DUMMY_XPATH_ROOT root))
  ↔ (n = root ∧ _match_node_element (as_helper_child root) e = true)
    ∨ (anywhere e = true ∧ In n (dfs root true) ∧ _match_node_element n e = true).
Proof.
  rewrite found_under_helper, in_app_iff.
  destruct (_match_node_element (as_helper_child root) e), (anywhere e); simpl;
    rewrite ?filter_In; intuition (subst; auto; discriminate).
Qed.

Lemma advance_In (work : list (work_node T)) e (w : work_node T) :
  In w (advance work e)
  ↔ ∃ n, w = TreeNode n ∧ ∃ w', In w' work ∧ In n (found_under e w').
Proof.
  unfold advance. rewrite in_map_iff. split.
  - intros (n & <- & Hn). exists n. split; [done|]. by apply in_flat_map.
  - intros (n & -> & Hn). exists n. split; [done|]. by apply in_flat_map.
Qed.

Lemma findall_loop_snoc (elements : list (ASTXpathElement T)) e work new_work :
  findall_loop (elements ++ [e]) work new_work
  = inr (flat_map (found_under e) (fold_left advance elements work)).
Proof.
  revert work new_work. induction elements as [|el elements IH]; intros work nw.
  - reflexivity.
  - simpl. by rewrite IH.
Qed.

Lemma work_at_fold (root : ASTNode T) (elements_reversed : list (ASTXpathElement T)) :
  work_at root elements_reversed
  = fold_left advance (reverse elements_reversed) [_DUMMY_XPATH_ROOT root].
Proof.
  induction elements_reversed as [|e rest IH]; [done|].
  rewrite reverse_cons, fold_left_app. simpl. by rewrite IH.
Qed.

(** The helper can be built around a node without parent, and around no
    other. *)
Lemma new_helper_top (root : ASTNode T) :
  above root = [] → new_DUMMY_XPATH_ROOT root = inr (_DUMMY_XPATH_ROOT root).
Proof.
  intros Htop%parent_None_iff. unfold new_DUMMY_XPATH_ROOT. by rewrite Htop.
Qed.

Lemma new_helper_collision (root : ASTNode T) :
  parent root ≠ None → new_DUMMY_XPATH_ROOT root = inl ASTNodeParentCollisionError.
Proof. unfold new_DUMMY_XPATH_ROOT. by destruct (parent root). Qed.

Lemma findall_elements_reverse (root : ASTNode T) e rest :
  above root = [] →
  findall_elements (reverse (e :: rest)) root
  = inr (flat_map (found_under e) (work_at root rest)).
Proof.
  intros Htop. unfold findall_elements. rewrite (new_helper_top root Htop).
  cbn [bind]. by rewrite reverse_cons, findall_loop_snoc, work_at_fold.
Qed.

Lemma findall_elements_In (root : ASTNode T) e rest (n : ASTNode T) :
  above root = [] →
  (∃ found, findall_elements (reverse (e :: rest)) root = inr found ∧ In n found)
  ↔ In (TreeNode n) (work_at root (e :: rest)).
Proof.
  intros Htop. rewrite (findall_elements_reverse root e rest Htop).
  simpl. unfold advance. rewrite in_map_iff. split.
  - intros (found & [= <-] & Hn). by exists n.
  - intros (n' & [= <-] & Hn). by eexists.
Qed.

(** ** The two algorithms agree *)

Lemma in_tree_root (root : ASTNode T) : in_tree root root.
Proof. unfold in_tree, dfs. rewrite dfs_tree_unfold. left. by destruct root. Qed.

Lemma dfs_false_cons (n : ASTNode T) : dfs n false = n :: dfs n true.
Proof. unfold dfs. rewrite dfs_tree_unfold. simpl. by destruct n. Qed.

Lemma unfiltered_as_helper_child (root : ASTNode T) e :
  parent_field e = None → parent_index e = None →
  _match_node_element (as_helper_child root) e = _match_node_element root e.
Proof.
  intros Hf Hi. unfold _match_node_element. rewrite Hf, Hi.
  by destruct root as [[ty fld idx cs] up].
Qed.

(** What the search finds lies in the tree, and what it finds below a
    node of the tree passes the test with the labels of the tree. *)
Lemma found_in_tree (root : ASTNode T) (elements : list (ASTXpathElement T)) :
  above root = [] →
  ∀ e n, In n (flat_map (found_under e) (work_at root elements)) →
    in_tree root n
    ∧ (elements ≠ [] → _match_node_element n e = true ∧ parent n ≠ None)
    ∧ (_match_node_element n e = true ∨ n = root).
Proof.
  intros Htop. induction elements as [|e' rest IH]; intros e n.
  - simpl. rewrite app_nil_r. intros [[-> _]|(_ & Hn & Hel)]%found_under_helper_In.
    + split; [apply in_tree_root|]. split; [done|by right].
    + split; [|split; [done|by left]].
      unfold in_tree. rewrite dfs_false_cons. by right.
  - intros (w & Hw & Hn)%in_flat_map. cbn [work_at] in Hw.
    apply advance_In in Hw as (w' & -> & w0 & Hw0 & Hw').
    assert (Hin : in_tree root w').
    { apply (IH e' w'). apply in_flat_map. by exists w0. }
    apply found_under_tree_In in Hn as [Hel Hn].
    assert (Hn' : in_tree root n ∧ parent n ≠ None).
    { destruct (anywhere e).
      - destruct (in_tree_below root Htop w' n Hin Hn) as [? Hanc]. split; [done|].
        intros Hp%ancestors_no_parent. by rewrite Hp in Hanc.
      - destruct (in_tree_child root Htop w' n Hin Hn) as [? Hp]. split; [done|].
        by rewrite Hp. }
    destruct Hn' as [? ?]. split; [done|]. split; [done|by left].
Qed.

(** On a tree whose root has no parent, and for a root-most element that
    judges the root as the helper's child the way it judges it in the
    tree, the work list after the elements down to the first of
    [elements] holds exactly the nodes of the tree that
    [_match_node_xpath] accepts for [elements]. *)
Lemma work_at_match (root : ASTNode T) (elements : list (ASTXpathElement T)) :
  above root = [] → elements ≠ [] →
  (∀ e, last elements = Some e →
        _match_node_element (as_helper_child root) e = _match_node_element root e) →
  ∀ n, In (TreeNode n) (work_at root elements)
       ↔ in_tree root n ∧ _match_node_xpath n elements = inr true.
Proof.
  intros Htop. induction elements as [|e rest IH]; [done|]. intros _ Hroot n.
  cbn [work_at]. rewrite advance_In.
  destruct rest as [|e' rest'].
  - (* the root-most element, searched from the helper node *)
    specialize (Hroot e eq_refl).
    rewrite match_node_xpath_single. cbn [work_at]. split.
    + intros (n' & [= <-] & w & [<-|[]] & Hn).
      apply found_under_helper_In in Hn as [[-> Hel]|(Hany & Hn & Hel)].
      * split; [apply in_tree_root|]. rewrite <- Hroot, Hel. simpl. f_equal.
        apply orb_true_iff. right. apply bool_decide_eq_true. by apply parent_None_iff.
      * split; [unfold in_tree; rewrite dfs_false_cons; by right|].
        by rewrite Hel, Hany.
    + intros [Hn [= Hm]]. apply andb_true_iff in Hm as [Hel Hm].
      exists n. split; [done|]. exists (_DUMMY_XPATH_ROOT root).
      split; [by left|]. apply found_under_helper_In.
      pose proof Hn as Hn'. unfold in_tree in Hn'. rewrite dfs_false_cons in Hn'.
      destruct Hn' as [<-|Hbelow].
      * left. by rewrite Hroot.
      * right. split; [|done].
        destruct (in_tree_below root Htop root n (in_tree_root root) Hbelow)
          as [_ Hanc].
        apply orb_true_iff in Hm as [Hany|Hp]; [done|].
        apply bool_decide_eq_true, ancestors_no_parent in Hp. by rewrite Hp in Hanc.
  - (* an element with elements above it, searched from matched nodes *)
    specialize (IH ltac:(done) Hroot).
    rewrite match_node_xpath_cons by done. split.
    + intros (n' & [= <-] & w & Hw & Hn).
      assert (∃ w', w = TreeNode w') as [w' ->].
      { cbn [work_at] in Hw. apply advance_In in Hw as (w' & -> & _). by exists w'. }
      apply IH in Hw as [Hw Hm].
      apply found_under_tree_In in Hn as [Hel Hn].
      destruct (anywhere e); simpl in Hn.
      * destruct (in_tree_below root Htop w' n Hw Hn) as [Hin Hanc].
        split; [done|]. split; [done|]. by exists w'.
      * destruct (in_tree_child root Htop w' n Hw Hn) as [Hin Hpar].
        split; [done|]. split; [done|]. by exists w'.
    + intros (Hn & Hel & Hm). exists n. split; [done|].
      destruct (anywhere e) eqn:Hany.
      * destruct Hm as (a & Ha & Hm).
        destruct (in_tree_ancestor root Htop a n Hn Ha) as [Hin Hbelow].
        exists (TreeNode a). split; [by apply IH|].
        apply found_under_tree_In. by rewrite Hany.
      * destruct Hm as (p & Hp & Hm).
        destruct (in_tree_parent root Htop p n Hn Hp) as [Hin Hchild].
        exists (TreeNode p). split; [by apply IH|].
        apply found_under_tree_In. by rewrite Hany.
Qed.

Lemma root_most_unfiltered_agree (root : ASTNode T) (elements : list (ASTXpathElement T)) :
  root_most_unfiltered elements →
  ∀ e, last elements = Some e →
       _match_node_element (as_helper_child root) e = _match_node_element root e.
Proof.
  unfold root_most_unfiltered. intros Hu e He. rewrite He in Hu.
  destruct Hu as [Hf Hi]. by apply unfiltered_as_helper_child.
Qed.

Lemma match_findall_elements (root : ASTNode T) (elements : list (ASTXpathElement T)) :
  above root = [] → elements ≠ [] → root_most_unfiltered elements →
  ∀ n, in_tree root n →
    _match_node_xpath n elements = inr true
    ↔ ∃ found, findall_elements (reverse elements) root = inr found ∧ In n found.
Proof.
  intros Htop Hne Hu n Hn.
  destruct elements as [|e rest]; [done|].
  rewrite (findall_elements_In root e rest n Htop).
  rewrite work_at_match; [tauto|done..|by apply root_most_unfiltered_agree].
Qed.

Lemma findall_elements_in_tree (root : ASTNode T) (elements : list (ASTXpathElement T)) found :
  above root = [] → elements ≠ [] → root_most_unfiltered elements →
  findall_elements (reverse elements) root = inr found →
  ∀ n, In n found → in_tree root n ∧ _match_node_xpath n elements = inr true.
Proof.
  intros Htop Hne Hu Hfound n Hn.
  destruct elements as [|e rest]; [done|].
  apply work_at_match; [done..|by apply root_most_unfiltered_agree|].
  apply findall_elements_In; [done|]. by exists found.
Qed.

Lemma findall_elements_total (root : ASTNode T) (elements : list (ASTXpathElement T)) :
  above root = [] → elements ≠ [] →
  ∃ found, findall_elements elements root = inr found.
Proof.
  intros Htop Hne. destruct elements as [|e rest _] using rev_ind; [done|].
  unfold findall_elements. rewrite (new_helper_top root Htop). cbn [bind].
  rewrite findall_loop_snoc. by eexists.
Qed.

(** ** Compilation *)

Lemma element_class_last (a : list (arg T)) (t : T) :
  raw_class (element (a ++ [ArgType t])) = Some t.
Proof.
  unfold element. destruct (a ++ [ArgType t]) as [|x l] eqn:E; [by destruct a|].
  rewrite <- E, fold_left_app. simpl.
  by destruct (fold_left element_step a (ASTNode_cls, None, None)) as [[ty pf] pi].
Qed.

(** What the parser returns ends with the self segment, which has a
    class. *)
Lemma parse_tokens_self (toks : list token) :
  ∀ st segs (args : list (arg T)) res,
    (st = AfterClass → ∃ a t, args = a ++ [ArgType t]) →
    parse_tokens st segs args toks = inr res →
    ∃ pre last c, res = pre ++ [last] ∧ raw_class last = Some c.
Proof.
  induction toks as [|tok toks IH]; intros st segs args res Hst Hres.
  - destruct st; simpl in Hres; try discriminate.
    injection Hres as <-. destruct Hst as (a & t & ->); [done|].
    exists segs, (self_ (a ++ [ArgType t])), t. split; [done|].
    apply element_class_last.
  - destruct st, tok; simpl in Hres; try discriminate;
      try (by eapply IH; [|exact Hres]).
    + destruct (check_and_get_ast_node_type s) as [t|]; [|done].
      simpl in Hres. eapply IH; [|exact Hres]. intros _. by exists args, t.
    + destruct (check_and_get_ast_node_type s) as [t|]; [|done].
      simpl in Hres. eapply IH; [|exact Hres]. intros _. by exists args, t.
    + destruct (index_spec digits) as [err|i]; [done|].
      simpl in Hres. by eapply IH; [|exact Hres].
    + destruct (check_and_get_ast_node_type s) as [t|]; [|done].
      simpl in Hres. eapply IH; [|exact Hres]. intros _. by exists args, t.
Qed.

Lemma xpath_parser_parse_nonempty text (elements : list (ASTXpathElement T)) :
  xpath_parser_parse text = inr elements → elements ≠ [].
Proof.
  unfold xpath_parser_parse. destruct (lex text None) as [|toks]; [done|]. simpl.
  destruct (parse_tokens AtStart [] [] toks) as [|segs] eqn:Hparse; [done|]. simpl.
  apply parse_tokens_self in Hparse as (pre & last & c & -> & Hc); [|done].
  unfold xpath. rewrite reverse_snoc, (xpath_for_first_class _ _ c Hc).
  intros [= <-]. simpl. by rewrite Hc.
Qed.

Lemma compile_inv xpath (elements : list (ASTXpathElement T)) :
  compile xpath = inr elements →
  xpath_parser_parse (if startswith_slash xpath then xpath else "//" +:+ xpath)
  = inr elements.
Proof.
  unfold compile.
  by destruct (xpath_parser_parse _) as [[]|els].
Qed.

Lemma compile_nonempty xpath (elements : list (ASTXpathElement T)) :
  compile xpath = inr elements → elements ≠ [].
Proof. intros Hc. by apply compile_inv, xpath_parser_parse_nonempty in Hc. Qed.

Lemma compile_error xpath (e : exn) :
  compile (T:=T) xpath = inl e → e = ASTXpathDefinitionError.
Proof.
  unfold compile.
  destruct (xpath_parser_parse _) as [[]|els]; try done; by intros [= <-].
Qed.

Lemma compile_relative xpath :
  startswith_slash xpath = false → compile (T:=T) xpath = compile ("//" +:+ xpath).
Proof. intros Hs. unfold compile. rewrite Hs. reflexivity. Qed.

(** ** Construction and the cache *)

Lemma ASTXpath_new_cache xpath (st : state T) :
  _AST_XPATH_CACHE (ASTXpath_new xpath st).1 !! xpath = Some (ASTXpath_new xpath st).2.
Proof.
  unfold ASTXpath_new.
  destruct (_AST_XPATH_CACHE st !! xpath) as [self|] eqn:Hc; simpl; [done|].
  apply lookup_insert_eq.
Qed.

Lemma ASTXpath_new_keeps xpath (st : state T) other self :
  _AST_XPATH_CACHE st !! other = Some self →
  _AST_XPATH_CACHE (ASTXpath_new xpath st).1 !! other = Some self.
Proof.
  intros Ho. unfold ASTXpath_new.
  destruct (_AST_XPATH_CACHE st !! xpath) as [self'|] eqn:Hc; simpl; [done|].
  rewrite lookup_insert_ne; [done|]. intros <-. congruence.
Qed.

Lemma ASTXpath_init_cache self xpath (st : state T) :
  _AST_XPATH_CACHE (ASTXpath_init self xpath st).1 = _AST_XPATH_CACHE st.
Proof. unfold ASTXpath_init. by destruct (compile xpath). Qed.

Lemma ASTXpath_call_unfold xpath (st : state T) :
  ASTXpath_call xpath st
  = match compile xpath with
    | inr elements =>
        (mkState (_AST_XPATH_CACHE (ASTXpath_new xpath st).1)
                 (<[(ASTXpath_new xpath st).2 :=
                      mkASTXpath (Some elements) (Some (reverse elements))]>
                    (objects (ASTXpath_new xpath st).1))
                 (next_ref (ASTXpath_new xpath st).1),
         inr (ASTXpath_new xpath st).2)
    | inl e => ((ASTXpath_new xpath st).1, inl e)
    end.
Proof.
  unfold ASTXpath_call, ASTXpath_init.
  destruct (ASTXpath_new xpath st) as [st' self]. simpl.
  by destruct (compile xpath).
Qed.

Lemma ASTXpath_call_cache xpath (st : state T) :
  _AST_XPATH_CACHE (ASTXpath_call xpath st).1
  = _AST_XPATH_CACHE (ASTXpath_new xpath st).1.
Proof. rewrite ASTXpath_call_unfold. by destruct (compile xpath). Qed.

Lemma ASTXpath_call_keeps xpath (st : state T) other self :
  _AST_XPATH_CACHE st !! other = Some self →
  _AST_XPATH_CACHE (ASTXpath_call xpath st).1 !! other = Some self.
Proof. rewrite ASTXpath_call_cache. apply ASTXpath_new_keeps. Qed.

Lemma run_calls_keeps xpaths (st : state T) other self :
  _AST_XPATH_CACHE st !! other = Some self →
  _AST_XPATH_CACHE (run_calls xpaths st) !! other = Some self.
Proof.
  revert st. induction xpaths as [|x xpaths IH]; intros st Ho; [done|].
  simpl. apply IH. by apply ASTXpath_call_keeps.
Qed.

(** The call returns what the cache holds for the text, or raises when
    the text does not compile. *)
Lemma ASTXpath_call_cached xpath (st : state T) self :
  _AST_XPATH_CACHE st !! xpath = Some self →
  (ASTXpath_call xpath st).2
  = match compile xpath with
    | inr _ => inr self
    | inl e => inl e
    end.
Proof.
  intros Hc. rewrite ASTXpath_call_unfold. unfold ASTXpath_new. rewrite Hc.
  by destruct (compile xpath).
Qed.

Lemma ASTXpath_call_success xpath (st st1 : state T) self :
  ASTXpath_call xpath st = (st1, inr self) →
  ∃ elements,
    compile xpath = inr elements
    ∧ objects st1 !! self = Some (mkASTXpath (Some elements) (Some (reverse elements)))
    ∧ _AST_XPATH_CACHE st1 !! xpath = Some self.
Proof.
  rewrite ASTXpath_call_unfold.
  destruct (compile xpath) as [e|elements]; [done|].
  intros [= <- <-]. exists elements. simpl. split; [done|]. split.
  - apply lookup_insert_eq.
  - apply ASTXpath_new_cache.
Qed.

Lemma ASTXpath_call_failure xpath (st : state T) (err : exn) :
  (ASTXpath_call xpath st).2 = inl err →
  err = ASTXpathDefinitionError ∧ compile (T:=T) xpath = inl ASTXpathDefinitionError.
Proof.
  rewrite ASTXpath_call_unfold.
  destruct (compile xpath) as [e'|elements] eqn:Hc; [|done].
  simpl. intros [= ->]. apply compile_error in Hc as ->. done.
Qed.

Lemma cache_wf_initial : cache_wf (initial_state (T:=T)).
Proof. split; simpl; intros *; by rewrite lookup_empty. Qed.

Lemma cache_wf_new xpath (st : state T) :
  cache_wf st → cache_wf (ASTXpath_new xpath st).1.
Proof.
  intros [Hlt Hinj]. unfold ASTXpath_new.
  destruct (_AST_XPATH_CACHE st !! xpath) as [self|] eqn:Hc; simpl; [done|].
  split; simpl.
  - intros x o. rewrite lookup_insert. case_decide.
    + intros [= <-]. lia.
    + intros Ho. apply Hlt in Ho. lia.
  - intros x1 x2 o. rewrite !lookup_insert. repeat case_decide; subst.
    + done.
    + intros [= <-] Ho. apply Hlt in Ho. lia.
    + intros Ho [= <-]. apply Hlt in Ho. lia.
    + apply Hinj.
Qed.

Lemma cache_wf_call xpath (st : state T) :
  cache_wf st → cache_wf (ASTXpath_call xpath st).1.
Proof.
  intros Hwf. apply (cache_wf_new xpath) in Hwf.
  rewrite ASTXpath_call_unfold. by destruct (compile xpath).
Qed.

Lemma ASTXpath_call_again xpath (st st1 : state T) self :
  ASTXpath_call xpath st = (st1, inr self) →
  ASTXpath_call xpath st1 = (st1, inr self).
Proof.
  intros Hcall.
  apply ASTXpath_call_success in Hcall as (elements & Hc & Hobj & Hcache).
  rewrite ASTXpath_call_unfold, Hc. unfold ASTXpath_new. rewrite Hcache. simpl.
  rewrite (insert_id _ _ _ Hobj). by destruct st1.
Qed.

(** In a well-formed state a construction writes to the object of its
    own text, or to a fresh one. *)
Lemma ASTXpath_call_other_object xpath other (st : state T) self :
  cache_wf st →
  _AST_XPATH_CACHE st !! xpath = Some self →
  other ≠ xpath →
  objects (ASTXpath_call other st).1 !! self = objects st !! self.
Proof.
  intros [Hlt Hinj] Hcache Hne.
  assert (Hself : (ASTXpath_new other st).2 ≠ self
                  ∧ objects (ASTXpath_new other st).1 !! self = objects st !! self).
  { unfold ASTXpath_new.
    destruct (_AST_XPATH_CACHE st !! other) as [self'|] eqn:Ho; simpl.
    - split; [|done]. intros ->. by apply Hne, (Hinj other xpath self).
    - apply Hlt in Hcache.
      split; [lia|]. rewrite lookup_insert_ne; [done|lia]. }
  destruct Hself as [Hfresh Hkept].
  rewrite ASTXpath_call_unfold.
  destruct (compile other); simpl; [done|].
  by rewrite lookup_insert_ne.
Qed.

(** Once compiled, the object of a text stays as it is through all later
    constructions. *)
Lemma compiled_object_stable xpath others :
  ∀ (st1 : state T) self obj,
    cache_wf st1 →
    _AST_XPATH_CACHE st1 !! xpath = Some self →
    objects st1 !! self = Some obj →
    ASTXpath_call xpath st1 = (st1, inr self) →
    objects (run_calls others st1) !! self = Some obj.
Proof.
  induction others as [|other others IH]; intros st1 self obj Hwf Hcache Hobj Hagain;
    [done|].
  simpl. destruct (decide (other = xpath)) as [->|Hne].
  - rewrite Hagain. simpl. by apply IH.
  - apply IH.
    + by apply cache_wf_call.
    + by apply ASTXpath_call_keeps.
    + by rewrite (ASTXpath_call_other_object xpath).
    + assert (Hc : ∃ elements, compile xpath = inr elements
                               ∧ obj = mkASTXpath (Some elements) (Some (reverse elements))).
      { apply ASTXpath_call_success in Hagain as (elements & Hc & Hobj' & _).
        exists elements. split; [done|]. congruence. }
      destruct Hc as (elements & Hc & ->).
      rewrite (ASTXpath_call_unfold xpath), Hc.
      unfold ASTXpath_new.
      rewrite (ASTXpath_call_keeps other st1 xpath self Hcache). simpl.
      rewrite insert_id; [by destruct (ASTXpath_call other st1).1|].
      by rewrite (ASTXpath_call_other_object xpath).
Qed.

(** ** The methods of a compiled path *)

Lemma ASTXpath_match_compiled self (st : state T) elements fwd (node : ASTNode T) :
  objects st !! self = Some (mkASTXpath (Some elements) fwd) →
  ASTXpath_match self node st = (st, _match_node_xpath node elements).
Proof. intros Hobj. unfold ASTXpath_match, getattr. by rewrite Hobj. Qed.

Lemma ASTXpath_findall_compiled self (st : state T) bwd elements (root : ASTNode T) :
  objects st !! self = Some (mkASTXpath bwd (Some elements)) →
  ASTXpath_findall self root st = (st, findall_elements elements root).
Proof.
  intros Hobj. unfold ASTXpath_findall, findall_elements, getattr. rewrite Hobj.
  by destruct (new_DUMMY_XPATH_ROOT root).
Qed.

(** C1: for a path that compiles and whose root-most element carries
    no field and no index constraint, a tree whose root has no parent and
    a node [n] of that tree, [match] accepts [n] if and only if [n] is
    among the nodes [findall] yields from the root.  The root-most
    element is the one [findall] tests the root against while the root is
    the helper's field [child]; every other element may constrain field
    and index. *)
Theorem match_iff_findall xpath (st st1 : state T) self elements (root n : ASTNode T) :
  ASTXpath_call xpath st = (st1, inr self) →
  compile xpath = inr elements →
  root_most_unfiltered elements →
  parent root = None →
  in_tree root n →
  (ASTXpath_match self n st1).2 = inr true
  ↔ ∃ found, (ASTXpath_findall self root st1).2 = inr found ∧ In n found.
Proof.
  intros Hcall Hc Hu Htop Hn.
  apply ASTXpath_call_success in Hcall as (elements' & Hc' & Hobj & _).
  assert (elements' = elements) as -> by congruence.
  rewrite (ASTXpath_match_compiled _ _ _ _ _ Hobj).
  rewrite (ASTXpath_findall_compiled _ _ _ _ _ Hobj). simpl.
  apply match_findall_elements; [|by apply compile_nonempty in Hc|done..].
  by apply parent_None_iff.
Qed.

(** C8, as the code has it: on a compiled path [match] returns a boolean
    for every node and never raises.  [findall] returns a finite sequence
    of nodes for every root without parent, and raises
    [ASTNodeParentCollisionError] for every root that has one.  When the
    root has no parent, the root-most element of the path carries no
    field and no index constraint, and [match] accepts no node of the
    tree, the sequence is empty. *)
Theorem match_findall_total xpath (st st1 : state T) self elements :
  ASTXpath_call xpath st = (st1, inr self) →
  compile xpath = inr elements →
  (∀ node : ASTNode T, ∃ b, (ASTXpath_match self node st1).2 = inr b)
  ∧ (∀ root : ASTNode T, parent root = None →
       ∃ found,
         (ASTXpath_findall self root st1).2 = inr found
         ∧ (root_most_unfiltered elements →
            (∀ n, in_tree root n → (ASTXpath_match self n st1).2 = inr false) →
            found = []))
  ∧ (∀ root : ASTNode T, parent root ≠ None →
       (ASTXpath_findall self root st1).2 = inl ASTNodeParentCollisionError).
Proof.
  intros Hcall Hc.
  apply ASTXpath_call_success in Hcall as (elements' & Hc' & Hobj & _).
  assert (elements' = elements) as -> by congruence. clear Hc'.
  apply compile_nonempty in Hc. split; [|split].
  - intros node. rewrite (ASTXpath_match_compiled _ _ _ _ _ Hobj). simpl.
    by apply match_node_xpath_total.
  - intros root Htop. rewrite (ASTXpath_findall_compiled _ _ _ _ _ Hobj). cbn [snd].
    apply parent_None_iff in Htop.
    destruct (findall_elements_total root (reverse elements) Htop) as [found Hfound].
    { intros Hrev. apply Hc. by rewrite <- (reverse_involutive elements), Hrev. }
    exists found. split; [done|]. intros Hu Hnone.
    destruct found as [|n found]; [done|]. exfalso.
    destruct (findall_elements_in_tree root elements _ Htop Hc Hu Hfound n) as [Hn Hm];
      [by left|].
    specialize (Hnone n Hn).
    rewrite (ASTXpath_match_compiled _ _ _ _ _ Hobj) in Hnone. simpl in Hnone.
    congruence.
  - intros root Hp. unfold ASTXpath_findall. cbn [snd].
    by rewrite (new_helper_collision root Hp).
Qed.

(** C9: a compiled path holds a leaf-to-root list with at least one
    element and a root-to-leaf list that is its reverse; [match] and
    [findall] leave the state, hence both lists, as they found it, and in
    a well-formed state no later construction changes them either. *)
Theorem compiled_path_lists xpath (st st1 : state T) self :
  ASTXpath_call xpath st = (st1, inr self) →
  ∃ elements_reversed,
    objects st1 !! self
    = Some (mkASTXpath (Some elements_reversed) (Some (reverse elements_reversed)))
    ∧ elements_reversed ≠ []
    ∧ (∀ node : ASTNode T, (ASTXpath_match self node st1).1 = st1)
    ∧ (∀ root : ASTNode T, (ASTXpath_findall self root st1).1 = st1)
    ∧ (cache_wf st →
       ∀ others,
         objects (run_calls others st1) !! self
         = Some (mkASTXpath (Some elements_reversed) (Some (reverse elements_reversed)))).
Proof.
  intros Hcall. pose proof Hcall as Hcall'.
  apply ASTXpath_call_success in Hcall as (elements & Hc & Hobj & Hcache).
  exists elements. split; [done|]. split; [by apply compile_nonempty in Hc|].
  split; [done|]. split; [done|].
  intros Hwf others. apply (compiled_object_stable xpath); try done.
  - replace st1 with (ASTXpath_call xpath st).1 by by rewrite Hcall'.
    by apply cache_wf_call.
  - by apply ASTXpath_call_again with st.
Qed.

(** C5: a text that does not start with a slash compiles to what the
    text with ["//"] put before it compiles to, and fails when that one
    fails; the two paths give the same answers in [match] and [findall]. *)
Theorem relative_path_is_anywhere xpath :
  startswith_slash xpath = false →
  compile (T:=T) xpath = compile ("//" +:+ xpath)
  ∧ (∀ (st st' : state T),
       (∃ err, (ASTXpath_call xpath st).2 = inl err)
       ↔ (∃ err, (ASTXpath_call ("//" +:+ xpath) st').2 = inl err))
  ∧ (∀ (st st1 st' st2 : state T) self1 self2,
       ASTXpath_call xpath st = (st1, inr self1) →
       ASTXpath_call ("//" +:+ xpath) st' = (st2, inr self2) →
       (∀ node : ASTNode T,
          (ASTXpath_match self1 node st1).2 = (ASTXpath_match self2 node st2).2)
       ∧ (∀ root : ASTNode T,
            (ASTXpath_findall self1 root st1).2 = (ASTXpath_findall self2 root st2).2)).
Proof.
  intros Hrel. pose proof (compile_relative xpath Hrel) as Heq.
  split; [done|]. split.
  - intros st st'. rewrite !ASTXpath_call_unfold, <- Heq.
    destruct (compile xpath) as [err|elements]; simpl.
    + split; intros _; by exists err.
    + split; by intros [err ?].
  - intros st st1 st' st2 self1 self2 H1 H2.
    apply ASTXpath_call_success in H1 as (els1 & Hc1 & Hobj1 & _).
    apply ASTXpath_call_success in H2 as (els2 & Hc2 & Hobj2 & _).
    assert (els1 = els2) as <- by congruence.
    split.
    + intros node. by rewrite (ASTXpath_match_compiled _ _ _ _ _ Hobj1),
        (ASTXpath_match_compiled _ _ _ _ _ Hobj2).
    + intros root. by rewrite (ASTXpath_findall_compiled _ _ _ _ _ Hobj1),
        (ASTXpath_findall_compiled _ _ _ _ _ Hobj2).
Qed.

(** C6: constructing [ASTXpath(xpath)] again returns the very object the
    first construction returned, at once and after any other
    constructions; the cache holds it under the text as it was given, so
    that another text, also one that differs only by a leading ["//"],
    gets another object. *)
Theorem construction_returns_cached_object xpath (st st1 : state T) self :
  ASTXpath_call xpath st = (st1, inr self) →
  ASTXpath_call xpath st1 = (st1, inr self)
  ∧ _AST_XPATH_CACHE st1 !! xpath = Some self
  ∧ (∀ others, (ASTXpath_call xpath (run_calls others st1)).2 = inr self)
  ∧ (cache_wf st →
     ∀ other (st2 : state T) self',
       other ≠ xpath → ASTXpath_call other st1 = (st2, inr self') → self' ≠ self).
Proof.
  intros Hcall. pose proof Hcall as Hcall'.
  apply ASTXpath_call_success in Hcall as (elements & Hc & Hobj & Hcache).
  split; [|split; [done|split]].
  - by apply ASTXpath_call_again with st.
  - intros others.
    rewrite (ASTXpath_call_cached _ _ self), Hc; [done|].
    by apply run_calls_keeps.
  - intros Hwf other st2 self' Hne Hother ->.
    assert (Hwf2 : cache_wf st2).
    { replace st2 with (ASTXpath_call other st1).1 by by rewrite Hother.
      apply cache_wf_call.
      replace st1 with (ASTXpath_call xpath st).1 by by rewrite Hcall'.
      by apply cache_wf_call. }
    assert (Hkept : _AST_XPATH_CACHE st2 !! xpath = Some self).
    { replace st2 with (ASTXpath_call other st1).1 by by rewrite Hother.
      by apply ASTXpath_call_keeps. }
    apply ASTXpath_call_success in Hother as (_ & _ & _ & Hcache2).
    destruct Hwf2 as [_ Hinj]. by apply Hne, (Hinj other xpath self).
Qed.

(** C3: a node that passes the single-element test of the root-most
    element is matched exactly when that element is [anywhere] or the node
    has no parent; a node that has a parent is never matched by a
    root-most element that is not [anywhere], and so the path ["/Root"]
    matches a node exactly when it is a [Root] without a parent. *)
Theorem final_element_root_or_anywhere (node : ASTNode T) e :
  _match_node_element node e = true →
  _match_node_xpath node [e] = inr (anywhere e || bool_decide (parent node = None))
  ∧ (_match_node_xpath node [e] = inr true ↔ anywhere e = true ∨ parent node = None)
  ∧ (∀ nested : ASTNode T,
       anywhere e = false → parent nested ≠ None →
       _match_node_xpath nested [e] = inr false)
  ∧ compile "/Root"
    = match check_and_get_ast_node_type "Root" with
      | Some t => inr [mkElement t None None false]
      | None => inl ASTXpathDefinitionError
      end
  ∧ (∀ (st st1 : state T) self,
       ASTXpath_call "/Root" st = (st1, inr self) →
       ∃ t, check_and_get_ast_node_type "Root" = Some t
            ∧ ∀ n : ASTNode T,
                (ASTXpath_match self n st1).2
                = inr (isinstance n t && bool_decide (parent n = None))).
Proof.
  intros Hel.
  assert (Hroot : compile "/Root"
                  = match check_and_get_ast_node_type "Root" with
                    | Some t => inr [mkElement t None None false]
                    | None => inl ASTXpathDefinitionError
                    end).
  { cbv -[check_and_get_ast_node_type].
    by destruct (check_and_get_ast_node_type "Root"). }
  split; [|split; [|split; [|split; [done|]]]].
  - by rewrite match_node_xpath_single, Hel.
  - rewrite match_node_xpath_single, Hel. simpl. split.
    + intros [= Hm]. apply orb_true_iff in Hm as [Hm|Hm]; [by left|right].
      by apply bool_decide_eq_true in Hm.
    + intros [->|Hp]; [done|]. f_equal. apply orb_true_iff. right.
      by apply bool_decide_eq_true.
  - intros nested Hany Hp. rewrite match_node_xpath_single, Hany. simpl.
    f_equal. apply andb_false_iff. right. by apply bool_decide_eq_false.
  - intros st st1 self Hcall.
    apply ASTXpath_call_success in Hcall as (elements & Hc & Hobj & _).
    rewrite Hroot in Hc.
    destruct (check_and_get_ast_node_type "Root") as [t|]; [|done].
    injection Hc as <-. exists t. split; [done|]. intros n.
    rewrite (ASTXpath_match_compiled _ _ _ _ _ Hobj). cbn [snd].
    rewrite match_node_xpath_single. unfold _match_node_element. simpl.
    by rewrite !andb_true_r.
Qed.

(** C2, as the code has it: when constructing [ASTXpath(xpath)] raises,
    it raises in every state and returns no path object, and it raises
    again on every later construction, whatever was constructed in
    between, so that no path is ever served for the text; the cache
    entries of all other texts are left as they were, and so is every
    object but the instance newly made for the text. *)
Theorem failed_construction_returns_no_path xpath (st0 : state T) :
  (ASTXpath_call xpath st0).2 = inl ASTXpathDefinitionError →
  ∀ st : state T,
    (ASTXpath_call xpath st).2 = inl ASTXpathDefinitionError
    ∧ (∀ others,
         (ASTXpath_call xpath (run_calls others (ASTXpath_call xpath st).1)).2
         = inl ASTXpathDefinitionError)
    ∧ (∀ other, other ≠ xpath →
         _AST_XPATH_CACHE (ASTXpath_call xpath st).1 !! other
         = _AST_XPATH_CACHE st !! other)
    ∧ (∀ self, self ≠ next_ref st →
         objects (ASTXpath_call xpath st).1 !! self = objects st !! self).
Proof.
  intros Hfail. apply ASTXpath_call_failure in Hfail as [_ Hc].
  assert (Hraise : ∀ st : state T,
             (ASTXpath_call xpath st).2 = inl ASTXpathDefinitionError).
  { intros st. by rewrite ASTXpath_call_unfold, Hc. }
  intros st. split; [done|]. split; [done|]. split.
  - intros other Hne. rewrite ASTXpath_call_cache. unfold ASTXpath_new.
    destruct (_AST_XPATH_CACHE st !! xpath); simpl; [done|].
    by rewrite lookup_insert_ne.
  - intros self Hne. rewrite ASTXpath_call_unfold, Hc. unfold ASTXpath_new.
    destruct (_AST_XPATH_CACHE st !! xpath); simpl; [done|].
    by rewrite lookup_insert_ne.
Qed.

(** * Further properties of the code *)

(** ** What the search yields *)

Lemma match_node_element_graft x (n : ASTNode T) e :
  _match_node_element (graft x n) e = _match_node_element n e.
Proof. reflexivity. Qed.

(** X2: from a node without parent [findall] returns a list, and every
    node in it is a node of the tree below the start node.  Every yielded
    node other than the start node passes the test of the last element of
    the path with the labels it has in the tree, and a path of more than
    one element never yields the start node. *)
Theorem findall_yields_nodes_of_the_subtree (elements : list (ASTXpathElement T)) e
    (root : ASTNode T) :
  parent root = None →
  ∃ found,
    findall_elements (elements ++ [e]) root = inr found
    ∧ ∀ n, In n found →
        in_tree root n
        ∧ (n = root ∨ _match_node_element n e = true)
        ∧ (elements ≠ [] → n ≠ root ∧ _match_node_element n e = true).
Proof.
  intros Hp. pose proof Hp as Htop. apply parent_None_iff in Htop.
  assert (Hrev : elements ++ [e] = reverse (e :: reverse elements))
    by by rewrite reverse_cons, reverse_involutive.
  rewrite Hrev, (findall_elements_reverse root e (reverse elements) Htop).
  eexists. split; [done|]. intros n Hn.
  destruct (found_in_tree root (reverse elements) Htop e n Hn) as (Hin & Hdeep & Hor).
  split; [done|]. split; [tauto|]. intros Hne.
  destruct Hdeep as [Hel Hpn].
  { intros Hr. apply Hne. by rewrite <- (reverse_involutive elements), Hr. }
  split; [|done]. intros ->. by rewrite Hp in Hpn.
Qed.

(** ** What the matcher asks of the ancestors *)

Lemma match_node_element_relaxed (n : ASTNode T) e e' :
  relaxed e e' → _match_node_element n e' = _match_node_element n e.
Proof.
  intros (Hc & Hf & Hi & _). unfold _match_node_element. by rewrite Hc, Hf, Hi.
Qed.

(** X3: [anywhere] only widens a path: a node matched by a path is still
    matched when some of its elements are made [anywhere], the filters
    staying as they are (what ["/A/B"] matches, ["//A//B"] matches). *)
Theorem anywhere_only_widens (elements elements' : list (ASTXpathElement T)) :
  Forall2 relaxed elements elements' →
  ∀ n : ASTNode T,
    _match_node_xpath n elements = inr true →
    _match_node_xpath n elements' = inr true.
Proof.
  induction 1 as [|e e' rest rest' Hrel Hrest IH]; intros n Hm; [done|].
  pose proof (match_node_element_relaxed n e e' Hrel) as Hel.
  destruct Hrel as (_ & _ & _ & Hany).
  destruct rest as [|e2 rest].
  - apply Forall2_nil_inv_l in Hrest as ->.
    rewrite match_node_xpath_single in *. rewrite Hel.
    injection Hm as Hm. apply andb_true_iff in Hm as [-> Hm]. simpl. f_equal.
    apply orb_true_iff in Hm as [Ha|Hp]; apply orb_true_iff; [left; auto|by right].
  - assert (Hne' : rest' ≠ []).
    { intros ->. by apply Forall2_nil_inv_r in Hrest. }
    apply match_node_xpath_cons in Hm as [Hme Hm]; [|done].
    apply match_node_xpath_cons; [done|]. rewrite Hel. split; [done|].
    destruct (anywhere e) eqn:Ha.
    + rewrite (Hany eq_refl). destruct Hm as (a & Hin & Hma).
      exists a. split; [done|]. by apply IH.
    + destruct Hm as (p & Hp & Hmp). destruct (anywhere e').
      * exists p. split; [by apply ancestors_parent|]. by apply IH.
      * exists p. split; [done|]. by apply IH.
Qed.

Lemma ancestors_shorter (a n : ASTNode T) :
  In a (ancestors n) → (length (above a) < length (above n))%nat.
Proof.
  intros (pre & k & ->)%ancestors_iff. rewrite length_app. simpl. lia.
Qed.

(** X4: every element of a path takes up a level of the tree: a node
    matched by a path of [k] elements has at least [k - 1] nodes above it,
    and exactly [k - 1] when no element is [anywhere]. *)
Theorem match_needs_depth (elements : list (ASTXpathElement T)) (n : ASTNode T) :
  _match_node_xpath n elements = inr true →
  (length elements ≤ S (length (ancestors n)))%nat
  ∧ (Forall (fun e => anywhere e = false) elements →
     length elements = S (length (ancestors n))).
Proof.
  assert (Hlen : ∀ m : ASTNode T, length (ancestors m) = length (above m)).
  { intros m. unfold ancestors. induction (above m) as [|[k t] up IH]; [done|].
    simpl. by rewrite IH. }
  rewrite Hlen. revert n.
  induction elements as [|e rest IH]; intros n Hm; [done|].
  destruct rest as [|e2 rest].
  - rewrite match_node_xpath_single in Hm. injection Hm as Hm.
    apply andb_true_iff in Hm as [_ Hm]. simpl. split; [lia|].
    intros [He _]%Forall_cons. rewrite He in Hm. simpl in Hm.
    apply bool_decide_eq_true, parent_None_iff in Hm. by rewrite Hm.
  - apply match_node_xpath_cons in Hm as [_ Hm]; [|done].
    destruct (anywhere e) eqn:Ha.
    + destruct Hm as (a & Hin & Hma). apply ancestors_shorter in Hin.
      destruct (IH a Hma) as [Hle _]. cbn [length] in *. split; [lia|].
      intros [He _]%Forall_cons. congruence.
    + destruct Hm as (p & Hp & Hmp). apply parent_iff in Hp as [k Hp].
      destruct (IH p Hmp) as [Hle Heq]. rewrite Hp. cbn [length] in *.
      split; [lia|]. intros [_ Hrest]%Forall_cons. by rewrite (Heq Hrest).
Qed.

(** X5: a path whose root-most element is [anywhere] does not look
    above the nodes it needs: a node it matches is still matched when the
    tree is put below further nodes. *)
Theorem relative_match_survives_grafting x (elements : list (ASTXpathElement T)) e :
  last elements = Some e →
  anywhere e = true →
  ∀ n : ASTNode T,
    _match_node_xpath n elements = inr true →
    _match_node_xpath (graft x n) elements = inr true.
Proof.
  intros Hlast Hany.
  induction elements as [|e1 rest IH]; intros n Hm; [done|].
  destruct rest as [|e2 rest].
  - injection Hlast as ->.
    rewrite match_node_xpath_single in *. rewrite match_node_element_graft, Hany in *.
    injection Hm as Hm. apply andb_true_iff in Hm as [-> _]. done.
  - specialize (IH Hlast).
    apply match_node_xpath_cons in Hm as [Hme Hm]; [|done].
    apply match_node_xpath_cons; [done|].
    rewrite match_node_element_graft. split; [done|].
    destruct (anywhere e1).
    + destruct Hm as (a & Hin & Hma). exists (graft x a). split; [|by apply IH].
      apply ancestors_iff in Hin as (pre & k & Hup). apply ancestors_iff.
      exists pre, k. simpl. by rewrite Hup, <- app_assoc.
    + destruct Hm as (p & Hp & Hmp). exists (graft x p). split; [|by apply IH].
      apply parent_iff in Hp as [k Hp]. apply parent_iff.
      exists k. simpl. by rewrite Hp.
Qed.

(** ** Nodes yielded more than once *)

Lemma NoDup_flat_map {A B} (f : A → list B) (l : list A) :
  NoDup l →
  (∀ a, In a l → NoDup (f a)) →
  (∀ a1 a2 b, In a1 l → In a2 l → In b (f a1) → In b (f a2) → a1 = a2) →
  NoDup (flat_map f l).
Proof.
  induction 1 as [|a l Hnotin Hl IH]; intros Hf Hdisj; simpl; [constructor|].
  apply NoDup_app. split; [|split].
  - apply Hf. by left.
  - intros b Hb%list_elem_of_In (a' & Ha' & Hb')%list_elem_of_In%in_flat_map.
    apply Hnotin, list_elem_of_In.
    by rewrite (Hdisj a a' b (or_introl eq_refl) (or_intror Ha') Hb Hb').
  - apply IH.
    + intros a' Ha'. apply Hf. by right.
    + intros a1 a2 b H1 H2. apply Hdisj; by right.
Qed.

Lemma NoDup_List_filter {A} (p : A → bool) (l : list A) :
  NoDup l → NoDup (List.filter p l).
Proof.
  induction 1 as [|a l Hnotin Hl IH]; simpl; [constructor|].
  destruct (p a); [|done]. constructor; [|done].
  intros [Hin _]%list_elem_of_In%filter_In. by apply Hnotin, list_elem_of_In.
Qed.

Lemma children_from_NoDup (t : tree T) up (cs : list (tree T)) (i : nat) :
  NoDup (children_from i t up cs).
Proof.
  revert i. induction cs as [|c cs IH]; intros i; simpl; constructor; [|apply IH].
  intros (k & c' & _ & Heq)%list_elem_of_In%children_from_In.
  injection Heq as _ Hi. lia.
Qed.

Lemma get_child_nodes_parent (w n : ASTNode T) :
  In n (get_child_nodes w) → parent n = Some w.
Proof.
  intros (k & Hup & _)%get_child_nodes_iff. apply parent_iff. by exists k.
Qed.

Lemma found_under_direct_NoDup e (w : work_node T) :
  anywhere e = false → NoDup (found_under e w).
Proof.
  intros Ha. destruct w as [child|node].
  - rewrite found_under_helper, Ha, app_nil_r.
    destruct (_match_node_element (as_helper_child child) e);
      [apply NoDup_singleton|constructor].
  - rewrite found_under_tree, Ha. apply NoDup_List_filter, children_from_NoDup.
Qed.

Lemma work_at_direct_NoDup (root : ASTNode T) (elements : list (ASTXpathElement T)) :
  Forall (fun e => anywhere e = false) elements →
  NoDup (work_at root elements)
  ∧ ∀ e, anywhere e = false → NoDup (flat_map (found_under e) (work_at root elements)).
Proof.
  induction 1 as [|e rest He Hrest [IHw IHf]].
  - split; [apply NoDup_singleton|]. intros e He. simpl. rewrite app_nil_r.
    by apply found_under_direct_NoDup.
  - assert (Hw : NoDup (work_at root (e :: rest))).
    { cbn [work_at]. unfold advance. apply NoDup_fmap_2; [by intros ?? [=]|].
      by apply IHf. }
    split; [done|]. intros e' He'.
    apply NoDup_flat_map; [done|by intros; apply found_under_direct_NoDup|].
    intros w1 w2 n Hw1 Hw2 Hn1 Hn2.
    cbn [work_at] in Hw1, Hw2.
    apply advance_In in Hw1 as (n1 & -> & _), Hw2 as (n2 & -> & _).
    apply found_under_tree_In in Hn1 as [_ Hn1], Hn2 as [_ Hn2].
    rewrite He' in Hn1, Hn2.
    apply get_child_nodes_parent in Hn1, Hn2. congruence.
Qed.

(** X6: from a node without parent, a path without [anywhere] elements
    makes [findall] return a list that holds every node at most once. *)
Theorem findall_direct_path_yields_once (elements : list (ASTXpathElement T))
    (root : ASTNode T) :
  parent root = None →
  elements ≠ [] →
  Forall (fun e => anywhere e = false) elements →
  ∃ found, findall_elements elements root = inr found ∧ NoDup found.
Proof.
  intros Htop%parent_None_iff Hne Hdirect.
  destruct elements as [|e rest _] using rev_ind; [done|].
  apply Forall_app in Hdirect as [Hrest [He _]%Forall_cons].
  replace (rest ++ [e]) with (reverse (e :: reverse rest))
    by by rewrite reverse_cons, reverse_involutive.
  rewrite (findall_elements_reverse root e (reverse rest) Htop).
  eexists. split; [done|].
  apply work_at_direct_NoDup; [|done]. by apply Forall_reverse.
Qed.

(** ** White space and slashes in the text of a path *)

Lemma is_WS_other (w : ascii) :
  is_WS w = true →
  is_CNAME_char w = false ∧ is_CNAME_start w = false ∧ is_DIGIT w = false
  ∧ punctuation w = None ∧ (nat_of_ascii w =? 47)%nat = false.
Proof.
  destruct w as [[] [] [] [] [] [] [] []]; vm_compute; intros Hw;
    try discriminate Hw; repeat split.
Qed.

Lemma lex_WS_head (w : ascii) (s : string) :
  is_WS w = true → lex (String w s) None = lex s None.
Proof.
  intros Hw. destruct (is_WS_other w Hw) as (_ & Hs & Hd & _).
  cbn [lex]. by rewrite Hs, Hd, Hw.
Qed.

Lemma lex_slash_head (s : string) :
  lex (String "/" s) None = (let* toks := lex s None in ret_ok (SLASH :: toks)).
Proof. reflexivity. Qed.

Lemma lex_WS_tail (w : ascii) (s : string) :
  is_WS w = true →
  ∀ cname, lex (s +:+ String w EmptyString) cname = lex s cname.
Proof.
  intros Hw. destruct (is_WS_other w Hw) as (Hc & Hs & Hd & _).
  induction s as [|c s IH]; intros cname.
  - change (EmptyString +:+ String w EmptyString) with (String w EmptyString).
    cbn [lex]. destruct cname; by rewrite ?Hc, ?Hs, ?Hd, Hw.
  - change (String c s +:+ String w EmptyString)
      with (String c (s +:+ String w EmptyString)).
    destruct cname; cbn [lex]; by rewrite !IH.
Qed.

Lemma compile_of_lex (xpath xpath' : string) :
  lex (if startswith_slash xpath then xpath else "//" +:+ xpath) None
  = lex (if startswith_slash xpath' then xpath' else "//" +:+ xpath') None →
  compile (T:=T) xpath = compile xpath'.
Proof. intros Hlex. unfold compile, xpath_parser_parse. by rewrite Hlex. Qed.

(** X7: white space before the text is not skipped when [__init__]
    looks for the leading slash: a text that starts with white space is
    compiled as a relative one, so [" /Root"] is ["///Root"], not
    ["/Root"]. *)
Theorem leading_space_makes_the_path_relative (w : ascii) (xpath : string) :
  is_WS w = true →
  compile (T:=T) (String w xpath) = compile ("//" +:+ xpath).
Proof.
  intros Hw. destruct (is_WS_other w Hw) as (_ & _ & _ & _ & Hslash).
  apply compile_of_lex. cbn [startswith_slash]. rewrite Hslash.
  change (startswith_slash ("//" +:+ xpath)) with true. cbv iota.
  change ("//" +:+ String w xpath) with (String "/" (String "/" (String w xpath))).
  change ("//" +:+ xpath) with (String "/" (String "/" xpath)).
  by rewrite !lex_slash_head, lex_WS_head.
Qed.

(** X8: white space after the text changes nothing. *)
Theorem trailing_space_is_ignored (w : ascii) (xpath : string) :
  is_WS w = true →
  compile (T:=T) (xpath +:+ String w EmptyString) = compile xpath.
Proof.
  intros Hw. apply compile_of_lex. destruct xpath as [|c xpath].
  - change (EmptyString +:+ String w EmptyString) with (String w EmptyString).
    destruct (is_WS_other w Hw) as (_ & _ & _ & _ & Hslash).
    cbn [startswith_slash]. rewrite Hslash.
    change ("//" +:+ String w EmptyString)
      with (("//" +:+ EmptyString) +:+ String w EmptyString).
    by apply lex_WS_tail.
  - change (String c xpath +:+ String w EmptyString)
      with (String c (xpath +:+ String w EmptyString)).
    cbn [startswith_slash]. destruct (nat_of_ascii c =? 47)%nat.
    + change (String c (xpath +:+ String w EmptyString))
        with (String c xpath +:+ String w EmptyString).
      by apply lex_WS_tail.
    + change ("//" +:+ String c (xpath +:+ String w EmptyString))
        with (("//" +:+ String c xpath) +:+ String w EmptyString).
      by apply lex_WS_tail.
Qed.

Lemma parse_tokens_prefix (toks : list token) :
  ∀ st (p segs : list (raw_segment T)) (args : list (arg T)),
    parse_tokens st (p ++ segs) args toks
    = (let* r := parse_tokens st segs args toks in ret_ok (p ++ r)).
Proof.
  induction toks as [|tok toks IH]; intros st p segs args.
  - destruct st; simpl; try done. by rewrite app_assoc.
  - destruct st, tok; simpl; try done; rewrite <- ?app_assoc; try (by rewrite IH);
      match goal with
      | |- context [check_and_get_ast_node_type ?name] =>
          destruct (check_and_get_ast_node_type name); simpl; [by rewrite IH|done]
      | |- context [index_spec ?ds] =>
          destruct (index_spec ds); simpl; [done|by rewrite IH]
      end.
Qed.

Lemma elements_by_spec_collapse (l : list (raw_segment T)) (el : raw_segment T) :
  raw_class el = None →
  elements_by_spec (l ++ [el; el]) = elements_by_spec (l ++ [el]).
Proof.
  intros Hel. induction l as [|x l IH]; simpl.
  - by rewrite Hel.
  - rewrite IH. destruct (raw_class x); [|done]. f_equal. f_equal.
    destruct l; simpl; [|done]. unfold is_placeholder. by rewrite Hel.
Qed.

Lemma xpath_after_slashes (r : list (raw_segment T)) (p : list (raw_segment T)) :
  (∃ pre last c, r = pre ++ [last] ∧ raw_class last = Some c) →
  xpath (p ++ r) = inr (elements_by_spec (reverse r ++ reverse p)).
Proof.
  intros (pre & last & c & -> & Hc). unfold xpath.
  rewrite reverse_app, reverse_snoc. simpl.
  by apply xpath_for_first_class with c.
Qed.

(** X9: a further slash at the start changes nothing: ["///" + s]
    compiles to what ["//" + s] compiles to, and fails when it fails. *)
Theorem leading_slashes_collapse (xpath : string) :
  compile (T:=T) ("///" +:+ xpath) = compile ("//" +:+ xpath).
Proof.
  unfold compile.
  change (startswith_slash ("///" +:+ xpath)) with true.
  change (startswith_slash ("//" +:+ xpath)) with true. cbv iota.
  unfold xpath_parser_parse.
  change ("///" +:+ xpath) with (String "/" (String "/" (String "/" xpath))).
  change ("//" +:+ xpath) with (String "/" (String "/" xpath)).
  rewrite !lex_slash_head.
  destruct (lex xpath None) as [err|toks]; [done|]. simpl.
  rewrite (parse_tokens_prefix toks AfterSlash [element []] []).
  rewrite (parse_tokens_prefix toks AfterSlash [element []; element []] []).
  destruct (parse_tokens AfterSlash [] [] toks) as [err|r] eqn:Hr; [done|].
  apply parse_tokens_self in Hr; [|done]. simpl.
  rewrite (xpath_after_slashes r [element []] Hr).
  rewrite (xpath_after_slashes r [element []; element []] Hr).
  by rewrite (elements_by_spec_collapse (reverse r) (element [])).
Qed.

(** ** What a compiled path can hold *)

Lemma elements_by_spec_from (l : list (raw_segment T)) e :
  In e (elements_by_spec l) →
  ∃ el, In el l ∧ raw_class el = Some (ast_class e) ∧ parent_index e = el.1.2.
Proof.
  induction l as [|el l IH]; simpl; [done|].
  destruct (raw_class el) as [c|] eqn:Hc.
  - intros [<-|He].
    + exists el. by split; [left|].
    + destruct (IH He) as (el' & ? & ?). exists el'. by split; [right|].
  - intros He. destruct (IH He) as (el' & ? & ?). exists el'. by split; [right|].
Qed.

Lemma int_of_token_range (c : ascii) (i : Z) :
  int_of_token c = inr i → (0 ≤ i ≤ 9)%Z.
Proof.
  unfold int_of_token.
  destruct (48 <=? Z.of_nat (nat_of_ascii c))%Z eqn:Hlo; [|done].
  destruct (Z.of_nat (nat_of_ascii c) <=? 57)%Z eqn:Hhi; [|done].
  intros [= <-]. lia.
Qed.

Lemma index_spec_range (digits : list ascii) (i : Z) :
  index_spec digits = inr i → (-1 ≤ i ≤ 9)%Z.
Proof.
  destruct digits as [|d digits]; simpl.
  - intros [= <-]. lia.
  - intros Hi%int_of_token_range. lia.
Qed.

Lemma element_ok (args : list (arg T)) :
  Forall arg_ok args → segment_ok (element args).
Proof.
  intros Hargs. unfold element. destruct args as [|a args]; [by split|].
  assert (Hfold : ∀ acc : T * option string * option Z,
            class_ok acc.1.1 → index_ok acc.2 →
            class_ok (fold_left element_step (a :: args) acc).1.1
            ∧ index_ok (fold_left element_step (a :: args) acc).2).
  { induction Hargs as [|x l Hx Hl IH]; intros [[ty pf] pi] Hty Hpi; [done|].
    cbn [fold_left]. apply IH; destruct x as [t|i|s]; simpl in *; try done.
    - by right.
    - destruct (i >? -1)%Z eqn:Hi; simpl; [lia|done]. }
  destruct (Hfold (ASTNode_cls, None, None)) as [Hc Hi]; [by left|done|].
  by destruct (fold_left element_step (a :: args) (ASTNode_cls, None, None))
    as [[ty pf] pi].
Qed.

Lemma parse_tokens_ok (toks : list token) :
  ∀ st (segs : list (raw_segment T)) (args : list (arg T)) res,
    Forall segment_ok segs → Forall arg_ok args →
    parse_tokens st segs args toks = inr res → Forall segment_ok res.
Proof.
  induction toks as [|tok toks IH]; intros st segs args res Hsegs Hargs Hres.
  - destruct st; simpl in Hres; try discriminate. injection Hres as <-.
    apply Forall_app. split; [done|]. apply Forall_singleton. by apply element_ok.
  - assert (Hseg' : Forall segment_ok (segs ++ [element args])).
    { apply Forall_app. split; [done|]. apply Forall_singleton. by apply element_ok. }
    destruct st, tok; simpl in Hres; try discriminate;
      try match type of Hres with
          | context [check_and_get_ast_node_type ?name] =>
              destruct (check_and_get_ast_node_type name) eqn:Hname;
              simpl in Hres; [|discriminate]
          | context [index_spec ?ds] =>
              destruct (index_spec ds) eqn:Hindex; simpl in Hres; [discriminate|];
              apply index_spec_range in Hindex
          end;
      refine (IH _ _ _ _ _ _ Hres); try done;
      apply Forall_app; (split; [done|]); apply Forall_singleton; simpl; eauto.
Qed.

Lemma xpath_parser_parse_inv text (elements : list (ASTXpathElement T)) :
  xpath_parser_parse text = inr elements →
  ∃ toks segs,
    lex text None = inr toks
    ∧ parse_tokens AtStart [] [] toks = inr segs
    ∧ (∃ pre last c, segs = pre ++ [last] ∧ raw_class last = Some c)
    ∧ elements = elements_by_spec (reverse segs).
Proof.
  unfold xpath_parser_parse. destruct (lex text None) as [|toks]; [done|]. simpl.
  destruct (parse_tokens AtStart [] [] toks) as [|segs] eqn:Hparse; [done|]. simpl.
  intros Hx. exists toks, segs. split; [done|]. split; [done|].
  assert (Hself : ∃ pre last c, segs = pre ++ [last] ∧ raw_class last = Some c)
    by by apply parse_tokens_self in Hparse.
  split; [done|].
  change segs with ([] ++ segs) in Hx.
  rewrite (xpath_after_slashes segs [] Hself), app_nil_r in Hx.
  by injection Hx as <-.
Qed.

(** X10: whatever the text, a compiled element filters on no index or
    on an index from 0 to 9, and on the base class or on a class that a
    name resolves to. *)
Theorem compiled_elements_are_well_formed xpath (elements : list (ASTXpathElement T)) :
  compile xpath = inr elements →
  ∀ e, In e elements → index_ok (parent_index e) ∧ class_ok (ast_class e).
Proof.
  intros Hc%compile_inv%xpath_parser_parse_inv e He.
  destruct Hc as (toks & segs & _ & Hparse & _ & ->).
  apply parse_tokens_ok in Hparse; [|done..].
  apply elements_by_spec_from in He as (el & Hel%list_elem_of_In & Hcls & Hidx).
  rewrite elem_of_reverse in Hel.
  rewrite Forall_forall in Hparse. destruct (Hparse el Hel) as [Hi Hk].
  rewrite Hcls in Hk. by rewrite Hidx.
Qed.

Lemma elements_by_spec_placeholder_last (l : list (raw_segment T)) (el : raw_segment T) :
  raw_class el = None →
  (elements_by_spec (l ++ [el]) = [] ∧ placeholder_next (l ++ [el]) = true)
  ∨ ∃ e, last (elements_by_spec (l ++ [el])) = Some e ∧ anywhere e = true.
Proof.
  intros Hel. induction l as [|x l IH]; simpl.
  - left. rewrite Hel. unfold is_placeholder. by rewrite Hel.
  - unfold is_placeholder. destruct (raw_class x) as [c|] eqn:Hx.
    + right. destruct IH as [[-> Hnext]|(e & Hlast & Hany)].
      * eexists. split; [done|]. done.
      * exists e. split; [|done].
        destruct (elements_by_spec (l ++ [el])); [done|]. done.
    + destruct IH as [[-> _]|IH]; [by left|by right].
Qed.

(** X11: a text without a leading slash compiles to a path whose
    root-most element is [anywhere]. *)
Theorem relative_path_ends_anywhere xpath (elements : list (ASTXpathElement T)) :
  startswith_slash xpath = false →
  compile xpath = inr elements →
  ∃ e, last elements = Some e ∧ anywhere e = true.
Proof.
  intros Hrel Hc%compile_inv. rewrite Hrel in Hc.
  apply xpath_parser_parse_inv in Hc as (toks & segs & Hlex & Hparse & _ & ->).
  change ("//" +:+ xpath) with (String "/" (String "/" xpath)) in Hlex.
  rewrite !lex_slash_head in Hlex.
  destruct (lex xpath None) as [|toks']; [done|]. injection Hlex as <-.
  simpl in Hparse.
  rewrite (parse_tokens_prefix toks' AfterSlash [element []] []) in Hparse.
  destruct (parse_tokens AfterSlash [] [] toks') as [|r] eqn:Hr; [done|].
  injection Hparse as <-.
  apply parse_tokens_self in Hr as (pre & lst & c & -> & Hcls); [|done].
  rewrite reverse_cons.
  destruct (elements_by_spec_placeholder_last (reverse (pre ++ [lst])) (None, None, None)
              eq_refl) as [[Hnil _]|Hlast]; [|done].
  rewrite reverse_snoc in Hnil. simpl in Hnil. by rewrite Hcls in Hnil.
Qed.

(** ** The cache over a run of constructions *)

Lemma state_inv_initial : state_inv (initial_state (T:=T)).
Proof. split; [apply cache_wf_initial|]. intros *. simpl. by rewrite lookup_empty. Qed.

Lemma state_inv_call xpath (st : state T) :
  state_inv st → state_inv (ASTXpath_call xpath st).1.
Proof.
  intros [Hwf Hobj]. split; [by apply cache_wf_call|].
  assert (Hnew : ∀ x self,
             _AST_XPATH_CACHE (ASTXpath_new xpath st).1 !! x = Some self →
             objects (ASTXpath_new xpath st).1 !! self
             = Some (if decide (x = xpath)
                     then match _AST_XPATH_CACHE st !! xpath with
                          | Some _ => object_of xpath
                          | None => mkASTXpath None None
                          end
                     else object_of x)).
  { intros x self. unfold ASTXpath_new.
    destruct (_AST_XPATH_CACHE st !! xpath) as [self'|] eqn:Hc; simpl.
    - intros Hx. rewrite (Hobj _ _ Hx). by case_decide; subst.
    - rewrite lookup_insert. case_decide as Hd; subst.
      + intros [= <-]. rewrite lookup_insert_eq. by rewrite decide_True.
      + intros Hx. rewrite decide_False by done.
        destruct Hwf as [Hlt _]. pose proof (Hlt _ _ Hx).
        rewrite lookup_insert_ne by lia. by apply Hobj. }
  pose proof (cache_wf_new xpath st Hwf) as [_ Hinj].
  pose proof (ASTXpath_new_cache xpath st) as Hself.
  intros x self. rewrite ASTXpath_call_unfold.
  destruct (compile xpath) as [err|elements] eqn:Hc; simpl; intros Hx.
  - rewrite (Hnew _ _ Hx). case_decide as Hd; [subst|done].
    destruct (_AST_XPATH_CACHE st !! xpath); [done|].
    unfold object_of. by rewrite Hc.
  - destruct (decide (x = xpath)) as [->|Hne].
    + assert (self = (ASTXpath_new xpath st).2) as -> by congruence.
      rewrite lookup_insert_eq. unfold object_of. by rewrite Hc.
    + rewrite lookup_insert_ne.
      * rewrite (Hnew _ _ Hx). by rewrite decide_False.
      * intros Heq. apply Hne. symmetry. apply (Hinj xpath x self); congruence.
Qed.

Lemma state_inv_run xpaths (st : state T) :
  state_inv st → state_inv (run_calls xpaths st).
Proof.
  revert st. induction xpaths as [|x xpaths IH]; intros st Hinv; [done|].
  simpl. by apply IH, state_inv_call.
Qed.

Lemma run_calls_app xs ys (st : state T) :
  run_calls (xs ++ ys) st = run_calls ys (run_calls xs st).
Proof. unfold run_calls. apply fold_left_app. Qed.

(** X12: the cache only grows.  No construction removes an entry or
    makes it refer to another object, and a text that was constructed,
    whether it compiled or not, has an entry from then on. *)
Theorem cache_only_grows (xpaths : list string) (st : state T) :
  (∀ xpath self,
     _AST_XPATH_CACHE st !! xpath = Some self →
     _AST_XPATH_CACHE (run_calls xpaths st) !! xpath = Some self)
  ∧ (∀ xpath, In xpath xpaths →
       ∃ self, _AST_XPATH_CACHE (run_calls xpaths st) !! xpath = Some self).
Proof.
  split; [intros xpath self; apply run_calls_keeps|].
  intros xpath (before & after & ->)%in_split.
  rewrite run_calls_app. simpl.
  exists (ASTXpath_new xpath (run_calls before st)).2.
  apply run_calls_keeps. rewrite ASTXpath_call_cache. apply ASTXpath_new_cache.
Qed.

(** X13: after any run of constructions from the empty cache, each
    cached text has an object of its own, and that object holds the two
    lists the text compiles to, or no list when the text does not
    compile. *)
Theorem cache_holds_what_the_text_compiles_to (xpaths : list string) :
  ∀ xpath self,
    _AST_XPATH_CACHE (run_calls xpaths (initial_state (T:=T))) !! xpath = Some self →
    objects (run_calls xpaths initial_state) !! self = Some (object_of xpath)
    ∧ ∀ other,
        _AST_XPATH_CACHE (run_calls xpaths (initial_state (T:=T))) !! other = Some self →
        other = xpath.
Proof.
  intros xpath self Hc.
  destruct (state_inv_run xpaths _ state_inv_initial) as [[_ Hinj] Hobj].
  split; [by apply Hobj|]. intros other Ho. by apply (Hinj other xpath self).
Qed.

(** X14: the instance that a failed construction leaves in the cache
    has no lists.  [match] on it raises [AttributeError] for every node.
    [findall] builds the helper first and reads the list after: it raises
    [AttributeError] from a node without parent, and the helper's
    [ASTNodeParentCollisionError] from a node that has one. *)
Theorem failed_instance_has_no_lists (xpaths : list string) xpath self (err : exn) :
  compile (T:=T) xpath = inl err →
  _AST_XPATH_CACHE (run_calls xpaths (initial_state (T:=T))) !! xpath = Some self →
  ∀ node : ASTNode T,
    (ASTXpath_match self node (run_calls xpaths initial_state)).2 = inl AttributeError
    ∧ (parent node = None →
       (ASTXpath_findall self node (run_calls xpaths initial_state)).2
       = inl AttributeError)
    ∧ (parent node ≠ None →
       (ASTXpath_findall self node (run_calls xpaths initial_state)).2
       = inl ASTNodeParentCollisionError).
Proof.
  intros Hfail Hc node.
  destruct (state_inv_run xpaths _ state_inv_initial) as [_ Hobj].
  apply Hobj in Hc. unfold object_of in Hc. rewrite Hfail in Hc.
  split; [|split].
  - unfold ASTXpath_match, getattr. by rewrite Hc.
  - intros Htop%parent_None_iff. unfold ASTXpath_findall, getattr. cbn [snd].
    rewrite (new_helper_top node Htop). cbn [bind]. by rewrite Hc.
  - intros Hp. unfold ASTXpath_findall. cbn [snd].
    by rewrite (new_helper_collision node Hp).
Qed.

(** ** What the matcher reads *)

Lemma labels_element (n n' : ASTNode T) e :
  labels n = labels n' → _match_node_element n e = _match_node_element n' e.
Proof.
  unfold labels, label, _match_node_element, isinstance, node_type,
    node_parent_field, node_parent_index.
  intros [= Ht Hf Hi _]. by rewrite Ht, Hf, Hi.
Qed.

Lemma labels_ancestors (n n' : ASTNode T) :
  labels n = labels n' →
  Forall2 (fun a a' => labels a = labels a') (ancestors n) (ancestors n').
Proof.
  unfold labels, ancestors. intros [= _ _ _ Hup].
  revert Hup. generalize (above n') as up'.
  induction (above n) as [|[k p] up IH]; intros [|[k' p'] up'] Hup; try done.
  cbn [map snd] in Hup.
  assert (Hp : label p = label p') by congruence.
  assert (Hup' : map (fun link : nat * tree T => label link.2) up
                 = map (fun link : nat * tree T => label link.2) up') by congruence.
  cbn [ancestors_of]. constructor; [|by apply IH].
  cbn [content above]. by rewrite Hp, Hup'.
Qed.

Lemma first_true_Forall2 {A} (f : A → result bool) (xs ys : list A) :
  Forall2 (fun x y => f x = f y) xs ys → first_true f xs = first_true f ys.
Proof.
  induction 1 as [|x y xs ys Hxy _ IH]; [done|].
  simpl. rewrite Hxy. destruct (f y) as [|[|]]; simpl; by rewrite ?IH.
Qed.

(** X19: the matcher reads the type, field and index of the node and of
    the nodes above it, and nothing else: two nodes that agree on these,
    in trees that may differ everywhere else, get the same answer. *)
Theorem match_reads_the_ancestor_line (elements : list (ASTXpathElement T))
    (n n' : ASTNode T) :
  labels n = labels n' →
  _match_node_xpath n elements = _match_node_xpath n' elements.
Proof.
  revert n n'. induction elements as [|e rest IH]; intros n n' Hl; [done|].
  pose proof (labels_ancestors n n' Hl) as Hanc.
  simpl. rewrite (labels_element n n' e Hl).
  destruct (_match_node_element n' e); simpl; [|done].
  assert (Hparent : match parent n, parent n' with
                    | Some p, Some p' => labels p = labels p'
                    | None, None => True
                    | _, _ => False
                    end).
  { unfold parent, ancestors in *.
    destruct (above n) as [|[k p] up], (above n') as [|[k' p'] up'];
      simpl in Hanc; try done; by inversion Hanc. }
  destruct rest as [|e2 rest].
  - by destruct (parent n), (parent n').
  - destruct (parent n) as [p|], (parent n') as [p'|]; try done.
    destruct (anywhere e); [|by apply IH].
    apply first_true_Forall2.
    eapply Forall2_impl; [exact Hanc|]. intros a a' Ha. by apply IH.
Qed.

(** ** Unknown classes and where a path is [anywhere] *)

Lemma parse_tokens_unknown_class (pre : list token) :
  ∀ st (segs : list (raw_segment T)) (args : list (arg T)) name post,
    check_and_get_ast_node_type name = None →
    last pre ≠ Some AT →
    (pre = [] → st ≠ AfterAt) →
    ∃ err, parse_tokens st segs args (pre ++ CNAME name :: post) = inl err.
Proof.
  induction pre as [|tok pre IH]; intros st segs args name post Hname Hlast Hfirst.
  - destruct st; simpl; rewrite ?Hname; simpl; try (by eexists).
    by destruct Hfirst.
  - assert (Hlast' : last pre ≠ Some AT).
    { destruct pre; [done|]. by rewrite last_cons_cons in Hlast. }
    destruct st, tok; simpl;
      repeat match goal with
        | |- context [check_and_get_ast_node_type ?n] =>
            destruct (check_and_get_ast_node_type n); simpl
        | |- context [index_spec ?d] => destruct (index_spec d); simpl
        end;
      try (by eexists);
      (apply IH; [done|done|]); try (intros _; discriminate).
    intros ->. by destruct Hlast.
Qed.

(** X20: a class name that does not resolve makes the whole text fail,
    wherever it stands: when the tokens of the text hold a name that is
    not a field name (no ["@"] before it) and that is no registered class,
    [compile] raises. *)
Theorem unknown_class_never_compiles xpath (pre post : list token) (name : string) :
  lex (if startswith_slash xpath then xpath else "//" +:+ xpath) None
  = inr (pre ++ CNAME name :: post) →
  last pre ≠ Some AT →
  check_and_get_ast_node_type name = None →
  compile (T:=T) xpath = inl ASTXpathDefinitionError.
Proof.
  intros Hlex Hlast Hname. unfold compile, xpath_parser_parse. rewrite Hlex. simpl.
  destruct (parse_tokens_unknown_class pre AtStart [] [] name post Hname Hlast)
    as [err ->]; [done|].
  by destruct err.
Qed.

Lemma element_has_class (args : list (arg T)) :
  args ≠ [] → is_placeholder (element args) = false.
Proof.
  destruct args as [|a args]; [done|]. intros _. unfold element, is_placeholder.
  by destruct (fold_left element_step (a :: args) (ASTNode_cls, None, None))
    as [[ty pf] pi].
Qed.

Lemma double_slash_tail (tok : token) (toks : list token) :
  double_slash (tok :: toks) = false → double_slash toks = false.
Proof. destruct tok; simpl; try done. by destruct toks as [|[]]. Qed.

Lemma double_slash_next (toks : list token) st :
  double_slash (SLASH :: toks) = false → no_slash_next st toks.
Proof. destruct st, toks as [|[]]; simpl; done. Qed.

Lemma parse_tokens_no_placeholder (toks : list token) :
  ∀ st (segs : list (raw_segment T)) (args : list (arg T)) res,
    Forall (fun el => is_placeholder el = false) segs →
    no_slash_next st toks → stage_has_args st args →
    double_slash toks = false →
    parse_tokens st segs args toks = inr res →
    Forall (fun el => is_placeholder el = false) res.
Proof.
  induction toks as [|tok toks IH]; intros st segs args res Hsegs Hnext Hargs Hds Hres.
  - destruct st; simpl in Hres; try discriminate. injection Hres as <-.
    apply Forall_app. split; [done|]. apply Forall_singleton.
    by apply element_has_class.
  - pose proof (double_slash_tail _ _ Hds) as Hds'.
    assert (Hclose : stage_has_args st args → st ≠ AfterSlash → st ≠ AtStart →
                     st ≠ AfterAt → (∀ ds, st ≠ InIndex ds) →
                     Forall (fun el => is_placeholder el = false)
                            (segs ++ [element args])).
    { intros Ha ????. apply Forall_app. split; [done|]. apply Forall_singleton.
      apply element_has_class. destruct st; try done; naive_solver. }
    destruct st, tok; simpl in Hres; try discriminate; try (by destruct Hnext);
      try match type of Hres with
          | context [check_and_get_ast_node_type ?name] =>
              destruct (check_and_get_ast_node_type name);
              simpl in Hres; [|discriminate]
          | context [index_spec ?ds] =>
              destruct (index_spec ds); simpl in Hres; [discriminate|]
          end;
      refine (IH _ _ _ _ _ _ _ Hds' Hres);
      try done; try (by apply double_slash_next);
      try (by destruct toks as [|[]]);
      try (by apply Hclose);
      try (simpl; by destruct args).
Qed.

Lemma elements_by_spec_direct (l : list (raw_segment T)) :
  Forall (fun el => is_placeholder el = false) l →
  Forall (fun e => anywhere e = false) (elements_by_spec l).
Proof.
  induction 1 as [|el l Hel Hl IH]; simpl; [constructor|].
  unfold is_placeholder in Hel. destruct (raw_class el); [|done].
  constructor; [|done]. simpl. by destruct Hl.
Qed.

(** X21: a compiled path is [anywhere] only where the text says so: a
    text that starts with a slash and never has two slashes in a row
    compiles to elements none of which is [anywhere]. *)
Theorem single_slashes_compile_direct xpath (toks : list token)
    (elements : list (ASTXpathElement T)) :
  lex (if startswith_slash xpath then xpath else "//" +:+ xpath) None = inr toks →
  double_slash toks = false →
  compile xpath = inr elements →
  Forall (fun e => anywhere e = false) elements.
Proof.
  intros Hlex Hds Hc%compile_inv%xpath_parser_parse_inv.
  destruct Hc as (toks' & segs & Hlex' & Hparse & _ & ->).
  assert (toks' = toks) as -> by congruence.
  apply elements_by_spec_direct, Forall_reverse.
  by apply (parse_tokens_no_placeholder toks AtStart [] [] segs).
Qed.

End XpathFacts.

(** * The theorems at work on the small hierarchy *)

Open Scope string_scope.

Lemma xpath_compiles_as_specified_witness :
  last demo_segments = Some (Some "f", Some 1%Z, Some "B")
  ∧ xpath demo_segments
    = inr [mkElement "B" (Some "f") (Some 1%Z) true; mkElement "A" None None true].
Proof.
  split; [reflexivity|].
  destruct (xpath_compiles_as_specified demo_segments (Some "f", Some 1%Z, Some "B") "B"
              eq_refl eq_refl) as [Hx _].
  rewrite Hx. reflexivity.
Defined.

Lemma match_iff_findall_witness :
  let st1 := (ASTXpath_call "A//@value Root" initial_state).1 in
  let elements :=
    [mkElement "Root" (Some "value") None true; mkElement "A" None None true] in
  ASTXpath_call "A//@value Root" initial_state = (st1, inr 0)
  ∧ compile "A//@value Root" = inr elements
  ∧ root_most_unfiltered elements
  ∧ parent demo_root = None
  ∧ in_tree demo_root demo_nested
  ∧ ((ASTXpath_match 0 demo_nested st1).2 = inr true
     ↔ ∃ found, (ASTXpath_findall 0 demo_root st1).2 = inr found ∧ In demo_nested found).
Proof.
  intros st1 elements.
  assert (Hcall : ASTXpath_call "A//@value Root" initial_state = (st1, inr 0))
    by (vm_compute; reflexivity).
  assert (Hc : compile "A//@value Root" = inr elements) by (vm_compute; reflexivity).
  assert (Hu : root_most_unfiltered elements) by (vm_compute; split; reflexivity).
  assert (Hin : in_tree demo_root demo_nested)
    by (vm_compute; right; right; left; reflexivity).
  split; [exact Hcall|]. split; [exact Hc|]. split; [exact Hu|].
  split; [reflexivity|]. split; [exact Hin|].
  exact (match_iff_findall "A//@value Root" initial_state st1 0 elements
           demo_root demo_nested Hcall Hc Hu eq_refl Hin).
Defined.

Lemma failed_construction_returns_no_path_witness :
  (ASTXpath_call "/@[0]" (initial_state (T:=string))).2 = inl ASTXpathDefinitionError
  ∧ (∀ others,
       (ASTXpath_call "/@[0]"
          (run_calls others (ASTXpath_call "/@[0]" (initial_state (T:=string))).1)).2
       = inl ASTXpathDefinitionError).
Proof.
  assert (Hfail : (ASTXpath_call "/@[0]" (initial_state (T:=string))).2
                  = inl ASTXpathDefinitionError) by (vm_compute; reflexivity).
  split; [exact Hfail|].
  exact (proj1 (proj2 (failed_construction_returns_no_path "/@[0]" initial_state Hfail
                         initial_state))).
Defined.

Lemma final_element_root_or_anywhere_witness :
  _match_node_element demo_root (mkElement "Root" None None false) = true
  ∧ _match_node_xpath demo_root [mkElement "Root" None None false] = inr true
  ∧ _match_node_xpath demo_nested [mkElement "Root" None None false] = inr false.
Proof.
  assert (Hel : _match_node_element demo_root (mkElement "Root" None None false) = true)
    by reflexivity.
  split; [exact Hel|].
  destruct (final_element_root_or_anywhere demo_root (mkElement "Root" None None false)
              Hel) as (Hroot & _ & Hnested & _).
  split.
  - rewrite Hroot. reflexivity.
  - apply Hnested; [reflexivity|]. vm_compute. discriminate.
Defined.

Lemma relative_path_is_anywhere_witness :
  startswith_slash "Root" = false
  ∧ compile (T:=string) "Root" = compile "//Root".
Proof.
  split; [reflexivity|].
  exact (proj1 (relative_path_is_anywhere (T:=string) "Root" eq_refl)).
Defined.

Lemma construction_returns_cached_object_witness :
  let st1 := (ASTXpath_call "A" initial_state).1 in
  ASTXpath_call "A" initial_state = (st1, inr 0)
  ∧ ASTXpath_call "A" st1 = (st1, inr 0)
  ∧ _AST_XPATH_CACHE st1 !! "A" = Some 0.
Proof.
  intros st1.
  assert (Hcall : ASTXpath_call "A" initial_state = (st1, inr 0))
    by (vm_compute; reflexivity).
  split; [exact Hcall|].
  destruct (construction_returns_cached_object "A" initial_state st1 0 Hcall)
    as (Hagain & Hcache & _).
  split; [exact Hagain | exact Hcache].
Defined.

Lemma match_findall_total_witness :
  let st1 := (ASTXpath_call "/A/B" initial_state).1 in
  let elements := [mkElement "B" None None false; mkElement "A" None None false] in
  ASTXpath_call "/A/B" initial_state = (st1, inr 0)
  ∧ compile "/A/B" = inr elements
  ∧ (∃ b, (ASTXpath_match 0 demo_nested st1).2 = inr b)
  ∧ (∃ found, (ASTXpath_findall 0 demo_root st1).2 = inr found)
  ∧ (ASTXpath_findall 0 demo_nested st1).2 = inl ASTNodeParentCollisionError.
Proof.
  intros st1 elements.
  assert (Hcall : ASTXpath_call "/A/B" initial_state = (st1, inr 0))
    by (vm_compute; reflexivity).
  assert (Hc : compile "/A/B" = inr elements) by (vm_compute; reflexivity).
  split; [exact Hcall|]. split; [exact Hc|].
  destruct (match_findall_total "/A/B" initial_state st1 0 elements Hcall Hc)
    as (Hm & Hf & Hp).
  split; [exact (Hm demo_nested)|]. split.
  - destruct (Hf demo_root eq_refl) as (found & Hfound & _). exists found. exact Hfound.
  - apply Hp. vm_compute. discriminate.
Defined.

Lemma compiled_path_lists_witness :
  let st1 := (ASTXpath_call "/A//B" initial_state).1 in
  ASTXpath_call "/A//B" initial_state = (st1, inr 0)
  ∧ ∃ elements_reversed,
      objects st1 !! 0
      = Some (mkASTXpath (Some elements_reversed) (Some (reverse elements_reversed)))
      ∧ elements_reversed ≠ [].
Proof.
  intros st1.
  assert (Hcall : ASTXpath_call "/A//B" initial_state = (st1, inr 0))
    by (vm_compute; reflexivity).
  split; [exact Hcall|].
  destruct (compiled_path_lists "/A//B" initial_state st1 0 Hcall)
    as (els & Hobj & Hne & _).
  exists els. split; [exact Hobj | exact Hne].
Defined.

(** C2 as the claim has it fails: the construction of ["/@[0]"] raises,
    and yet the cache, empty before, holds an entry for that text
    afterwards, an instance whose lists were never assigned. *)
Lemma failed_construction_is_cached :
  let st1 := (ASTXpath_call "/@[0]" (initial_state (T:=string))).1 in
  (ASTXpath_call "/@[0]" (initial_state (T:=string))).2 = inl ASTXpathDefinitionError
  ∧ _AST_XPATH_CACHE (initial_state (T:=string)) !! "/@[0]" = None
  ∧ _AST_XPATH_CACHE st1 !! "/@[0]" = Some 0
  ∧ objects st1 !! 0 = Some (mkASTXpath None None)
  ∧ _AST_XPATH_CACHE st1 ≠ _AST_XPATH_CACHE (initial_state (T:=string)).
Proof.
  intros st1.
  assert (Hafter : _AST_XPATH_CACHE st1 !! "/@[0]" = Some 0) by (vm_compute; reflexivity).
  split; [vm_compute; reflexivity|]. split; [reflexivity|]. split; [exact Hafter|].
  split; [vm_compute; reflexivity|].
  intros Heq. rewrite Heq in Hafter. discriminate Hafter.
Qed.

(** C8 as the claim has it fails in both of its parts.  On the tree of
    [demo_root], whose root has no parent, [match] rejects every node for
    ["/@child Root"], and yet [findall] yields the root, which it meets
    as the field [child] of its helper.  Started from the inner node
    [demo_nested] of that tree, a node that has a parent, [findall]
    raises [ASTNodeParentCollisionError]. *)
Lemma findall_raises_or_yields_unmatched :
  let st1 := (ASTXpath_call "/@child Root" initial_state).1 in
  ASTXpath_call "/@child Root" initial_state = (st1, inr 0)
  ∧ parent demo_root = None
  ∧ (∀ n, in_tree demo_root n → (ASTXpath_match 0 n st1).2 = inr false)
  ∧ (ASTXpath_findall 0 demo_root st1).2 = inr [demo_root]
  ∧ in_tree demo_root demo_nested
  ∧ (ASTXpath_findall 0 demo_nested st1).2 = inl ASTNodeParentCollisionError.
Proof.
  intros st1.
  split; [vm_compute; reflexivity|]. split; [reflexivity|]. split.
  { intros n Hn. vm_compute in Hn.
    destruct Hn as [<-|[<-|[<-|[]]]]; vm_compute; reflexivity. }
  split; [vm_compute; reflexivity|].
  split; [vm_compute; right; right; left; reflexivity|].
  vm_compute; reflexivity.
Qed.

(** ["/Root"] on a [Root] nested in a [Root]: only the outer one. *)
Example slash_root_matches_the_root_only :
  let st1 := (ASTXpath_call "/Root" initial_state).1 in
  (ASTXpath_match 0 demo_root st1).2 = inr true
  ∧ (ASTXpath_match 0 demo_nested st1).2 = inr false
  ∧ (ASTXpath_findall 0 demo_root st1).2 = inr [demo_root].
Proof. vm_compute. repeat split. Qed.

(** ["A"] and ["//A"] compile to the same lists and are two objects. *)
Example relative_and_anywhere_are_two_objects :
  let '(st1, first) := ASTXpath_call "A" initial_state in
  let '(st2, second) := ASTXpath_call "//A" st1 in
  first = inr 0 ∧ second = inr 1 ∧ objects st2 !! 0 = objects st2 !! 1.
Proof. vm_compute. repeat split. Qed.

(** ["/[]/A"] is not ["//A"]. *)
Example bare_empty_index_differs_from_placeholder :
  compile (T:=string) "/[]/A"
  = inr [mkElement "A" None None false; mkElement "ASTNode" None None false]
  ∧ compile (T:=string) "//A" = inr [mkElement "A" None None true].
Proof. vm_compute. repeat split. Qed.

(** The round trip of the specification: ["/@body[0]A"] matches the [A]
    at index 0 of [body] under the root, ["/@body[1]A"] does not, and
    ["/@body[]A"] matches whatever the index. *)
Example index_round_trip :
  let middle := mkNode demo_middle [(0, demo_tree)] in
  (bind (compile "Root/@body[0]A") (_match_node_xpath middle)) = inr true
  ∧ (bind (compile "Root/@body[1]A") (_match_node_xpath middle)) = inr false
  ∧ (bind (compile "Root/@body[]A") (_match_node_xpath middle)) = inr true
  ∧ (bind (compile "Root/@body[]A") (_match_node_xpath (at_index middle (Some 7%Z)))) = inr true.
Proof. vm_compute. repeat split. Qed.

(** * Properties of the test fixtures *)

Lemma dep_marks_size_le (names : list string) (d : string) :
  dep_marks names = {[d]} → (size (dep_marks names) ≤ 1)%nat.
Proof. intros ->. by rewrite size_singleton. Qed.

(** X16: the hook never skips a test that has no [dep_] marker: it
    returns, or fails its assertion when the [-m] option names two or
    more different [dep_] marks. *)
Theorem unmarked_test_is_not_skipped (marker_names option_words : list string) :
  Forall (fun name => String.prefix "dep_" name = false) marker_names →
  pytest_runtest_setup marker_names option_words
  = if decide (size (dep_marks option_words) ≤ 1)%nat then Runs else AssertionError.
Proof.
  intros Hnone.
  assert (Hempty : dep_marks marker_names = ∅).
  { unfold dep_marks. induction Hnone as [|name names Hname _ IH]; [done|].
    simpl. by rewrite Hname. }
  unfold pytest_runtest_setup. rewrite Hempty, size_empty.
  rewrite decide_True; [|lia]. case_decide; [|done].
  rewrite (bool_decide_eq_false_2 (∅ ≠ ∅)); [done|]. intros Hne. by apply Hne.
Qed.

(** X17: a test whose [dep_] markers name one mark [d] runs when the
    [-m] option names [dep_d] alone or [dep_all] alone, and is skipped
    when it names another single mark or none. *)
Theorem marked_test_runs_when_requested (marker_names option_words : list string)
    (d : string) :
  dep_marks marker_names = {[d]} →
  (size (dep_marks option_words) ≤ 1)%nat →
  pytest_runtest_setup marker_names option_words
  = if bool_decide (dep_marks option_words = {[d]} ∨ dep_marks option_words = {["all"]})
    then Runs else Skipped.
Proof.
  intros Hd Hsize. unfold pytest_runtest_setup.
  rewrite Hd, size_singleton. rewrite !decide_True; [|done|lia].
  rewrite (bool_decide_eq_true_2 ({[d]} ≠ ∅)); [|apply non_empty_singleton_L].
  cbn [andb].
  destruct (bool_decide_reflect
              (dep_marks option_words = {[d]} ∨ dep_marks option_words = {["all"]}))
    as [Hreq|Hreq].
  - destruct Hreq as [Hsame|Hall].
    + rewrite (bool_decide_eq_false_2 ({[d]} ≠ dep_marks option_words)); [done|].
      intros Hne. by apply Hne.
    + rewrite (bool_decide_eq_false_2 (dep_marks option_words ≠ {["all"]}));
        [by rewrite andb_false_r|].
      intros Hne. by apply Hne.
  - rewrite !bool_decide_eq_true_2; [done| |].
    + intros Hall. apply Hreq. by right.
    + intros Hsame. apply Hreq. by left.
Qed.

(** * The further properties at work *)

Lemma anywhere_only_widens_witness :
  let direct := [mkElement "Root" (Some "value") None false;
                 mkElement "A" None None false; mkElement "Root" None None false] in
  let wide := [mkElement "Root" (Some "value") None true;
               mkElement "A" None None true; mkElement "Root" None None true] in
  Forall2 relaxed direct wide
  ∧ _match_node_xpath demo_nested direct = inr true
  ∧ _match_node_xpath demo_nested wide = inr true.
Proof.
  intros direct wide.
  assert (Hrel : Forall2 relaxed direct wide)
    by (repeat constructor; reflexivity).
  assert (Hm : _match_node_xpath demo_nested direct = inr true) by reflexivity.
  split; [exact Hrel|]. split; [exact Hm|].
  exact (anywhere_only_widens direct wide Hrel demo_nested Hm).
Defined.

Lemma match_needs_depth_witness :
  let direct := [mkElement "Root" (Some "value") None false;
                 mkElement "A" None None false; mkElement "Root" None None false] in
  _match_node_xpath demo_nested direct = inr true
  ∧ length direct = S (length (ancestors demo_nested)).
Proof.
  intros direct.
  assert (Hm : _match_node_xpath demo_nested direct = inr true) by reflexivity.
  split; [exact Hm|].
  apply (proj2 (match_needs_depth direct demo_nested Hm)).
  repeat constructor.
Defined.

Lemma relative_match_survives_grafting_witness :
  let elements := [mkElement "Root" (Some "value") None false;
                   mkElement "A" None None true] in
  last elements = Some (mkElement "A" None None true)
  ∧ _match_node_xpath demo_nested elements = inr true
  ∧ _match_node_xpath (graft [(2, Tree "B" None None [])] demo_nested) elements
    = inr true.
Proof.
  intros elements.
  assert (Hm : _match_node_xpath demo_nested elements = inr true) by reflexivity.
  split; [reflexivity|]. split; [exact Hm|].
  exact (relative_match_survives_grafting [(2, Tree "B" None None [])] elements
           (mkElement "A" None None true) eq_refl eq_refl demo_nested Hm).
Defined.

Lemma findall_yields_nodes_of_the_subtree_witness :
  parent demo_root = None
  ∧ ∃ found,
      findall_elements [mkElement "Root" None None false;
                        mkElement "A" (Some "body") None false] demo_root
      = inr found
      ∧ ∀ n, In n found →
          in_tree demo_root n
          ∧ n ≠ demo_root
          ∧ _match_node_element n (mkElement "A" (Some "body") None false) = true.
Proof.
  split; [reflexivity|].
  destruct (findall_yields_nodes_of_the_subtree
              [mkElement "Root" None None false]
              (mkElement "A" (Some "body") None false) demo_root eq_refl)
    as (found & Hfound & Hall).
  exists found. split; [exact Hfound|]. intros n Hn.
  destruct (Hall n Hn) as (Hin & _ & Hdeep).
  split; [exact Hin|]. apply Hdeep. discriminate.
Defined.

Lemma findall_direct_path_yields_once_witness :
  let elements := [mkElement "Root" None None false; mkElement "A" None None false] in
  parent demo_root = None
  ∧ elements ≠ []
  ∧ ∃ found, findall_elements elements demo_root = inr found ∧ NoDup found.
Proof.
  intros elements.
  assert (Hne : elements ≠ []) by discriminate.
  split; [reflexivity|]. split; [exact Hne|].
  apply (findall_direct_path_yields_once elements demo_root eq_refl Hne).
  repeat constructor.
Defined.

Lemma leading_space_makes_the_path_relative_witness :
  is_WS " " = true
  ∧ compile (T:=string) " /Root" = compile "///Root".
Proof.
  split; [reflexivity|].
  exact (leading_space_makes_the_path_relative (T:=string) " " "/Root" eq_refl).
Defined.

Lemma trailing_space_is_ignored_witness :
  is_WS " " = true
  ∧ compile (T:=string) "/Root " = compile "/Root".
Proof.
  split; [reflexivity|].
  exact (trailing_space_is_ignored (T:=string) " " "/Root" eq_refl).
Defined.

Lemma compiled_elements_are_well_formed_witness :
  compile (T:=string) "/@body[75]A" = inr [mkElement "A" (Some "body") (Some 7%Z) false]
  ∧ index_ok (Some 7%Z) ∧ class_ok "A".
Proof.
  assert (Hc : compile (T:=string) "/@body[75]A"
               = inr [mkElement "A" (Some "body") (Some 7%Z) false])
    by (vm_compute; reflexivity).
  split; [exact Hc|].
  exact (compiled_elements_are_well_formed "/@body[75]A" _ Hc
           (mkElement "A" (Some "body") (Some 7%Z) false) (or_introl eq_refl)).
Defined.

Lemma relative_path_ends_anywhere_witness :
  startswith_slash "A/B" = false
  ∧ compile (T:=string) "A/B"
    = inr [mkElement "B" None None false; mkElement "A" None None true]
  ∧ ∃ e, last [mkElement "B" None None false; mkElement "A" None None true] = Some e
         ∧ anywhere e = true.
Proof.
  assert (Hc : compile (T:=string) "A/B"
               = inr [mkElement "B" None None false; mkElement "A" None None true])
    by (vm_compute; reflexivity).
  split; [reflexivity|]. split; [exact Hc|].
  exact (relative_path_ends_anywhere "A/B" _ eq_refl Hc).
Defined.

Lemma cache_holds_what_the_text_compiles_to_witness :
  let st := run_calls ["A"; "/@[0]"] (initial_state (T:=string)) in
  _AST_XPATH_CACHE st !! "/@[0]" = Some 1
  ∧ objects st !! 1 = Some (object_of "/@[0]").
Proof.
  intros st.
  assert (Hc : _AST_XPATH_CACHE st !! "/@[0]" = Some 1) by (vm_compute; reflexivity).
  split; [exact Hc|].
  exact (proj1 (cache_holds_what_the_text_compiles_to ["A"; "/@[0]"] "/@[0]" 1 Hc)).
Defined.

Lemma failed_instance_has_no_lists_witness :
  let st := run_calls ["A"; "/@[0]"] (initial_state (T:=string)) in
  compile (T:=string) "/@[0]" = inl ASTXpathDefinitionError
  ∧ _AST_XPATH_CACHE st !! "/@[0]" = Some 1
  ∧ (ASTXpath_match 1 demo_root st).2 = inl AttributeError
  ∧ (ASTXpath_findall 1 demo_root st).2 = inl AttributeError
  ∧ (ASTXpath_findall 1 demo_nested st).2 = inl ASTNodeParentCollisionError.
Proof.
  intros st.
  assert (Hf : compile (T:=string) "/@[0]" = inl ASTXpathDefinitionError)
    by (vm_compute; reflexivity).
  assert (Hc : _AST_XPATH_CACHE st !! "/@[0]" = Some 1) by (vm_compute; reflexivity).
  split; [exact Hf|]. split; [exact Hc|].
  destruct (failed_instance_has_no_lists ["A"; "/@[0]"] "/@[0]" 1 _ Hf Hc demo_root)
    as (Hm & Htop & _).
  split; [exact Hm|]. split; [exact (Htop eq_refl)|].
  apply (failed_instance_has_no_lists ["A"; "/@[0]"] "/@[0]" 1 _ Hf Hc demo_nested).
  vm_compute. discriminate.
Defined.

Lemma match_reads_the_ancestor_line_witness :
  let other :=
    mkNode (Tree "Root" (Some "value") None [Tree "B" None None []])
           [(5, Tree "A" (Some "body") (Some 0%Z) []); (1, Tree "Root" None None [])] in
  let elements := [mkElement "Root" (Some "value") None false;
                   mkElement "A" None None true] in
  labels demo_nested = labels other
  ∧ _match_node_xpath demo_nested elements = _match_node_xpath other elements.
Proof.
  intros other elements.
  assert (Hl : labels demo_nested = labels other) by reflexivity.
  split; [exact Hl|].
  exact (match_reads_the_ancestor_line elements demo_nested other Hl).
Defined.

Lemma unmarked_test_is_not_skipped_witness :
  Forall (fun name => String.prefix "dep_" name = false) ["slow"; "unit"]
  ∧ pytest_runtest_setup ["slow"; "unit"] ["dep_msgpack"] = Runs.
Proof.
  assert (Hnone : Forall (fun name => String.prefix "dep_" name = false) ["slow"; "unit"])
    by (repeat constructor).
  split; [exact Hnone|].
  rewrite (unmarked_test_is_not_skipped ["slow"; "unit"] ["dep_msgpack"] Hnone).
  vm_compute. reflexivity.
Defined.

Lemma marked_test_runs_when_requested_witness :
  dep_marks ["slow"; "dep_msgpack"] = {["msgpack"]}
  ∧ (size (dep_marks ["-k"; "dep_all"]) ≤ 1)%nat
  ∧ pytest_runtest_setup ["slow"; "dep_msgpack"] ["-k"; "dep_all"] = Runs.
Proof.
  assert (Hd : dep_marks ["slow"; "dep_msgpack"] = {["msgpack"]})
    by (vm_compute; reflexivity).
  assert (Hs : (size (dep_marks ["-k"; "dep_all"]) ≤ 1)%nat)
    by (vm_compute; lia).
  split; [exact Hd|]. split; [exact Hs|].
  rewrite (marked_test_runs_when_requested ["slow"; "dep_msgpack"] ["-k"; "dep_all"]
             "msgpack" Hd Hs).
  vm_compute. reflexivity.
Defined.

Lemma unknown_class_never_compiles_witness :
  lex "/A/Unknown/B" None
  = inr ([SLASH; CNAME "A"; SLASH] ++ CNAME "Unknown" :: [SLASH; CNAME "B"])%list
  ∧ check_and_get_ast_node_type (T:=string) "Unknown" = None
  ∧ compile (T:=string) "/A/Unknown/B" = inl ASTXpathDefinitionError.
Proof.
  assert (Hlex : lex "/A/Unknown/B" None
                 = inr ([SLASH; CNAME "A"; SLASH] ++ CNAME "Unknown" :: [SLASH; CNAME "B"])%list)
    by (vm_compute; reflexivity).
  assert (Hlast : last [SLASH; CNAME "A"; SLASH] ≠ Some AT) by discriminate.
  assert (Hname : check_and_get_ast_node_type (T:=string) "Unknown" = None)
    by reflexivity.
  split; [exact Hlex|]. split; [exact Hname|].
  exact (unknown_class_never_compiles (T:=string) "/A/Unknown/B"
           [SLASH; CNAME "A"; SLASH] [SLASH; CNAME "B"] "Unknown" Hlex Hlast Hname).
Defined.

Lemma single_slashes_compile_direct_witness :
  lex "/Root/@body[0]A" None
  = inr [SLASH; CNAME "Root"; SLASH; AT; CNAME "body"; LSQB; DIGIT "0"; RSQB; CNAME "A"]
  ∧ compile (T:=string) "/Root/@body[0]A"
    = inr [mkElement "A" (Some "body") (Some 0%Z) false; mkElement "Root" None None false]
  ∧ Forall (fun e => anywhere e = false)
           [mkElement "A" (Some "body") (Some 0%Z) false;
            mkElement "Root" None None false].
Proof.
  assert (Hlex : lex "/Root/@body[0]A" None
                 = inr [SLASH; CNAME "Root"; SLASH; AT; CNAME "body"; LSQB;
                        DIGIT "0"; RSQB; CNAME "A"])
    by (vm_compute; reflexivity).
  assert (Hc : compile (T:=string) "/Root/@body[0]A"
               = inr [mkElement "A" (Some "body") (Some 0%Z) false;
                      mkElement "Root" None None false])
    by (vm_compute; reflexivity).
  split; [exact Hlex|]. split; [exact Hc|].
  exact (single_slashes_compile_direct (T:=string) "/Root/@body[0]A" _ _ Hlex eq_refl Hc).
Defined.
